(** * tinyID load generator ([scripts/req_mock.py]): model and properties

    The script issues [num_requests] HTTP GET requests through an
    [asyncio.Semaphore] of [concurrency] slots, feeds every outcome to a
    [RequestStats] object and prints the summary computed by
    [get_summary].

    Conventions of the embedding.
    - Python [int] is [Z]; Python [str] is [string], the UTF-8 encoding
      of the text.
    - Python [float] values (clock readings, latencies, rates) are the
      rationals they denote, [Qc].
    - [time.time()], [random.randint], the aiohttp session and the
      event loop are the environment: what they return is an input of the
      definitions below.

    The script is embedded at two levels of detail. The first level
    takes arithmetic on floats to be exact, a character to be one byte
    and [print] to succeed; it carries the properties that do not depend
    on these three points. Module [Py] gives the same functions with the
    rounding of every float operation, slices that count code points and
    a [print] that can raise; what depends on rounding, on non-ASCII
    text or on standard output is stated there. *)

From Stdlib Require Import ZArith QArith Qcanon Qround Qabs Qpower List String Ascii Bool.
From Stdlib Require Import Permutation Lia Lqa DecimalString DecimalPos DecimalZ.
Import ListNotations.

Open Scope string_scope.
Open Scope Z_scope.

(** ** Numbers *)

Definition Qc_of_Z (z : Z) : Qc := Q2Qc (inject_Z z).
Definition Qc_of_nat (n : nat) : Qc := Qc_of_Z (Z.of_nat n).

(** [x < y] on floats, as a boolean. *)
Definition Qc_ltb (x y : Qc) : bool :=
  match (x ?= y)%Qc with Lt => true | _ => false end.

(** [str(n)] for an [int]. *)
Definition str_of_int (n : Z) : string := NilZero.string_of_int (Z.to_int n).

(** [s[:n]], a character of a [str] being an [ascii] here ([Py.slice]
    counts code points). *)
Fixpoint str_take (n : nat) (s : string) : string :=
  match n, s with
  | S k, String c rest => String c (str_take k rest)
  | _, _ => EmptyString
  end.

(** Round half to even, the rule of Python's [round]. *)
Definition round_half_even (q : Q) : Z :=
  let f := Qfloor q in
  match (q - inject_Z f ?= 1 # 2)%Q with
  | Lt => f
  | Gt => f + 1
  | Eq => if Z.even f then f else f + 1
  end.

(** [round(x, ndigits)] for [ndigits >= 0]: the nearest decimal of
    [ndigits] places ([Py.round] then takes the nearest float). *)
Definition py_round (x : Qc) (ndigits : nat) : Qc :=
  let scale := Z.pow 10 (Z.of_nat ndigits) in
  (Qc_of_Z (round_half_even (x * Qc_of_Z scale)%Qc) / Qc_of_Z scale)%Qc.

(** [sum(l)], [min(l)] and [max(l)] on a list of floats; [min] and [max]
    start from the first element and keep the earlier of two equal ones. *)
Definition py_sum (l : list Qc) : Qc := fold_left Qcplus l (Qc_of_Z 0).

Definition py_min (x : Qc) (l : list Qc) : Qc :=
  fold_left (fun m y => if Qc_ltb y m then y else m) l x.

Definition py_max (x : Qc) (l : list Qc) : Qc :=
  fold_left (fun m y => if Qc_ltb m y then y else m) l x.

(** ** [class RequestStats] *)

Record RequestStats := mkStats {
  total_requests : Z;
  successful_requests : Z;
  failed_requests : Z;
  response_times : list Qc;
  errors : list string
}.

(** [RequestStats.__init__] *)
Definition RequestStats_init : RequestStats := mkStats 0 0 0 [] [].

Definition add_success (response_time : Qc) (self : RequestStats) : RequestStats :=
  mkStats (total_requests self + 1)
          (successful_requests self + 1)
          (failed_requests self)
          (response_times self ++ [response_time])
          (errors self).

Definition add_failure (error : string) (response_time : Qc) (self : RequestStats)
  : RequestStats :=
  mkStats (total_requests self + 1)
          (successful_requests self)
          (failed_requests self + 1)
          (if Qc_ltb (Qc_of_Z 0) response_time
           then response_times self ++ [response_time]
           else response_times self)
          (errors self ++ [error]).

(** The dictionary returned by [get_summary], one field per key. *)
Record Summary := mkSummary {
  s_total_requests : Z;
  s_successful_requests : Z;
  s_failed_requests : Z;
  s_success_rate : Qc;
  s_avg_response_time_ms : Qc;
  s_min_response_time_ms : Qc;
  s_max_response_time_ms : Qc;
  s_errors : list string
}.

(** The seconds values [avg_response_time], [min_response_time] and
    [max_response_time] computed at the head of [get_summary]. *)
Definition avg_response_time (self : RequestStats) : Qc :=
  match response_times self with
  | [] => Qc_of_Z 0
  | l => (py_sum l / Qc_of_nat (List.length l))%Qc
  end.

Definition min_response_time (self : RequestStats) : Qc :=
  match response_times self with
  | [] => Qc_of_Z 0
  | x :: l => py_min x l
  end.

Definition max_response_time (self : RequestStats) : Qc :=
  match response_times self with
  | [] => Qc_of_Z 0
  | x :: l => py_max x l
  end.

Definition success_rate (self : RequestStats) : Qc :=
  if 0 <? total_requests self
  then (Qc_of_Z (successful_requests self) / Qc_of_Z (total_requests self)
        * Qc_of_Z 100)%Qc
  else Qc_of_Z 0.

Definition get_summary (self : RequestStats) : Summary :=
  mkSummary (total_requests self)
            (successful_requests self)
            (failed_requests self)
            (success_rate self)
            (py_round (avg_response_time self * Qc_of_Z 1000)%Qc 2)
            (py_round (min_response_time self * Qc_of_Z 1000)%Qc 2)
            (py_round (max_response_time self * Qc_of_Z 1000)%Qc 2)
            (firstn 10 (errors self)).

(** One ingestion into the aggregator: the call [make_request] makes on
    [stats], with its arguments. *)
Inductive ingestion :=
| AddSuccess (response_time : Qc)
| AddFailure (error : string) (response_time : Qc).

Definition ingest (o : ingestion) (self : RequestStats) : RequestStats :=
  match o with
  | AddSuccess rt => add_success rt self
  | AddFailure e rt => add_failure e rt self
  end.

Definition ingest_all (l : list ingestion) (self : RequestStats) : RequestStats :=
  fold_left (fun s o => ingest o s) l self.


(** ** The environment of one request attempt *)

(** Exception classes that can reach the handlers of [make_request].
    The first four are aiohttp classes derived from [aiohttp.ClientError]
    (connection, disconnection, payload and socket-timeout errors).
    [TimeoutError] is [asyncio.TimeoutError], which aiohttp raises when
    the [total] budget of [ClientTimeout] expires; it does not derive
    from [aiohttp.ClientError]. [UnicodeEncodeError] and
    [BrokenPipeError] are what [print] raises when standard output
    cannot encode a character or is a closed pipe. [CancelledError]
    derives from [BaseException] only. *)
Inductive exn_class :=
| ClientConnectorError
| ServerDisconnectedError
| ClientPayloadError
| ServerTimeoutError
| TimeoutError
| UnicodeDecodeError
| UnicodeEncodeError
| BrokenPipeError
| ValueError
| CancelledError.

(** An exception object: its class and [str(e)]. *)
Record exn := mkExn { exn_cls : exn_class; exn_str : string }.

(** [isinstance(e, aiohttp.ClientError)] *)
Definition is_ClientError (e : exn) : bool :=
  match exn_cls e with
  | ClientConnectorError | ServerDisconnectedError
  | ClientPayloadError | ServerTimeoutError => true
  | _ => false
  end.

(** [isinstance(e, Exception)] *)
Definition is_Exception (e : exn) : bool :=
  match exn_cls e with
  | CancelledError => false
  | _ => true
  end.

(** What [session.get(url)] does: it returns a response with a status
    code, or raises. *)
Inductive get_result :=
| GetResponse (status : Z)
| GetRaises (e : exn).

(** What [response.text()] does: it returns the body, or raises. *)
Inductive text_result :=
| TextBody (content : string)
| TextRaises (e : exn).

(** The behaviour of the environment during one call of [make_request]:
    the identifier drawn by [random.randint], the clock reading when the
    call starts, the time that passes while [session.get] and
    [response.text] are awaited, and what each of them yields. *)
Record attempt := mkAttempt {
  rand_id : Z;
  t_start : Qc;
  get_delay : Qc;
  get_outcome : get_result;
  text_delay : Qc;
  text_outcome : text_result
}.

(** A line written by [print]. The text layout of progress and report
    lines is not modelled, only what they show. *)
Inductive line :=
| Msg (text : string)
| LineOk (user_id status : Z) (response_time : Qc)
| LineHttpError (user_id status : Z) (response_time : Qc) (snippet : string)
| LineClientError (user_id : Z) (detail : string)
| LineException (user_id : Z) (detail : string)
| LineElapsed (total_time : Qc)
| LineQps (rate : Qc)
| LineReport (as_json : bool) (summary : Summary).

(** ** A state and exception monad for [make_request] *)

Record world := mkWorld {
  clock : Qc;                 (* what [time.time()] returns now *)
  stats : RequestStats;       (* the shared aggregator *)
  stdout : list line;
  requested : list string     (* URLs handed to [session.get] *)
}.

Inductive result (A : Type) :=
| Ret (a : A)
| Raise (e : exn).
Arguments Ret {A} a.
Arguments Raise {A} e.

Definition M (A : Type) : Type := world -> result A * world.

Definition ret {A} (a : A) : M A := fun w => (Ret a, w).
Definition raise {A} (e : exn) : M A := fun w => (Raise e, w).
Definition bind {A B} (m : M A) (k : A -> M B) : M B :=
  fun w => match m w with
           | (Ret a, w') => k a w'
           | (Raise e, w') => (Raise e, w')
           end.

Notation "x <- m ;; k" := (bind m (fun x => k))
  (at level 61, m at next level, right associativity).
Notation "m ;;; k" := (bind m (fun _ => k))
  (at level 61, right associativity).

(** [try: body except C1 as e: h1 except C2 as e: h2]: the first clause
    whose class matches handles the exception; an exception no clause
    matches, or one raised by a handler, propagates. *)
Fixpoint select_handler {A} (hs : list ((exn -> bool) * (exn -> M A))) (e : exn)
  : option (M A) :=
  match hs with
  | [] => None
  | (matches, h) :: rest => if matches e then Some (h e) else select_handler rest e
  end.

Definition try_except {A} (body : M A) (hs : list ((exn -> bool) * (exn -> M A)))
  : M A :=
  fun w => match body w with
           | (Ret a, w') => (Ret a, w')
           | (Raise e, w') =>
               match select_handler hs e with
               | Some h => h w'
               | None => (Raise e, w')
               end
           end.

Definition time_time : M Qc := fun w => (Ret (clock w), w).

Definition advance (d : Qc) (w : world) : world :=
  mkWorld (clock w + d)%Qc (stats w) (stdout w) (requested w).

(** [random.randint(a, b)]: [ValueError] on an empty range. *)
Definition random_randint (a b : Z) (drawn : Z) : M Z :=
  if a <=? b then ret drawn
  else raise (mkExn ValueError
                ("empty range in randrange(" ++ str_of_int a ++ ", "
                   ++ str_of_int (b + 1) ++ ")")).

(** [await session.get(url)] *)
Definition session_get (env : attempt) (url : string) : M Z :=
  fun w =>
    let w' := advance (get_delay env)
                (mkWorld (clock w) (stats w) (stdout w) (requested w ++ [url])) in
    match get_outcome env with
    | GetResponse status => (Ret status, w')
    | GetRaises e => (Raise e, w')
    end.

(** [await response.text()] *)
Definition response_text (env : attempt) : M string :=
  fun w =>
    let w' := advance (text_delay env) w in
    match text_outcome env with
    | TextBody content => (Ret content, w')
    | TextRaises e => (Raise e, w')
    end.

Definition on_stats (f : RequestStats -> RequestStats) : M unit :=
  fun w => (Ret tt, mkWorld (clock w) (f (stats w)) (stdout w) (requested w)).

(** [print(...)]: the line goes to standard output; writing to it is
    taken to succeed ([Py.print] can raise). *)
Definition print (l : line) : M unit :=
  fun w => (Ret tt, mkWorld (clock w) (stats w) (stdout w ++ [l]) (requested w)).

(** ** [make_request] *)

(** The coroutine, statement by statement. The two awaits are
    [session_get] and [response_text]; leaving the [async with] block
    is taken to succeed. *)
Definition make_request (env : attempt) (base_url : string) (min_id max_id : Z)
  : M unit :=
  user_id <- random_randint min_id max_id (rand_id env) ;;
  let url := base_url ++ "/user?id=" ++ str_of_int user_id in
  start_time <- time_time ;;
  try_except
    (status <- session_get env url ;;
     end_time <- time_time ;;
     let response_time := (end_time - start_time)%Qc in
     content <- response_text env ;;
     if status =? 200 then
       on_stats (add_success response_time) ;;;
       print (LineOk user_id status response_time)
     else
       let error_msg := "HTTP " ++ str_of_int status ++ ": " ++ str_take 100 content in
       on_stats (add_failure error_msg response_time) ;;;
       print (LineHttpError user_id status response_time (str_take 50 content)))
    [ (is_ClientError,
       fun e =>
         end_time <- time_time ;;
         let response_time := (end_time - start_time)%Qc in
         let error_msg := "ClientError: " ++ exn_str e in
         on_stats (add_failure error_msg response_time) ;;;
         print (LineClientError user_id (exn_str e)));
      (is_Exception,
       fun e =>
         end_time <- time_time ;;
         let response_time := (end_time - start_time)%Qc in
         let error_msg := "Exception: " ++ exn_str e in
         on_stats (add_failure error_msg response_time) ;;;
         print (LineException user_id (exn_str e))) ].

(** ** [run_concurrent_requests] *)

Record config := mkConfig {
  base_url : string;
  num_requests : Z;
  concurrency : Z;
  min_id : Z;
  max_id : Z
}.

(** Where a [bounded_request] coroutine stands.
    - [Waiting]: at [async with semaphore], the slot not yet acquired;
    - [InFlight]: holds a slot, suspended inside [make_request];
    - [Returned]: still holds the slot, [make_request] has returned or
      raised;
    - [Done]: the slot is released and the coroutine has finished. *)
Inductive task := Waiting | InFlight | Returned | Done.

Definition holds_slot (t : task) : bool :=
  match t with InFlight | Returned => true | _ => false end.

Definition past_request (t : task) : bool :=
  match t with Returned | Done => true | _ => false end.

Definition is_done (t : task) : bool :=
  match t with Done => true | _ => false end.

(** The state of a batch: the value of the [asyncio.Semaphore], the
    coroutines in [tasks], and what they share. *)
Record batch := mkBatch {
  sem : Z;
  tasks : list task;
  b_stats : RequestStats;
  b_stdout : list line;
  b_requested : list string
}.

(** What the event loop can do next with coroutine [i]: let its
    [semaphore.acquire()] return, let the awaits of its [make_request]
    come back the way [env] says, or let its [async with] block exit.
    [make_request] touches the shared [stats] only after its last
    [await], without suspending in between, so its effect on the batch is
    one step, [Complete]; the clock readings and network behaviour it met
    on the way are the [attempt]. *)
Inductive event :=
| Acquire (i : nat)
| Complete (i : nat) (env : attempt)
| Release (i : nat).

Definition event_task (ev : event) : nat :=
  match ev with Acquire i | Complete i _ | Release i => i end.

(** [asyncio.Semaphore]: the value counts the free slots. [acquire]
    takes one when there is one and suspends the caller otherwise (no
    result here); [release] gives one back. *)
Definition Semaphore_acquire (value : Z) : option Z :=
  if 0 <? value then Some (value - 1) else None.

Definition Semaphore_release (value : Z) : Z := value + 1.

Definition with_sem (v : Z) (b : batch) : batch :=
  mkBatch v (tasks b) (b_stats b) (b_stdout b) (b_requested b).

(** [bounded_request], one resumption at a time:
    [async with semaphore: await make_request(session, base_url, stats,
    min_id, max_id)]. The slot is released on the way out of the block
    whether [make_request] returned or raised. *)
Definition bounded_request (cfg : config) (ev : event) (t : task) (b : batch)
  : option (task * batch) :=
  match ev, t with
  | Acquire _, Waiting =>
      match Semaphore_acquire (sem b) with
      | Some v => Some (InFlight, with_sem v b)
      | None => None
      end
  | Complete _ env, InFlight =>
      let w := mkWorld (t_start env) (b_stats b) (b_stdout b) (b_requested b) in
      let w' := snd (make_request env (base_url cfg) (min_id cfg) (max_id cfg) w) in
      Some (Returned, mkBatch (sem b) (tasks b) (stats w') (stdout w') (requested w'))
  | Release _, Returned =>
      Some (Done, with_sem (Semaphore_release (sem b)) b)
  | _, _ => None
  end.

Fixpoint set_nth {A} (i : nat) (x : A) (l : list A) : list A :=
  match l, i with
  | [], _ => []
  | _ :: rest, O => x :: rest
  | y :: rest, S j => y :: set_nth j x rest
  end.

(** One step of the event loop: the coroutine named by the event moves,
    if it can. *)
Definition step (cfg : config) (ev : event) (b : batch) : option batch :=
  match nth_error (tasks b) (event_task ev) with
  | Some t =>
      match bounded_request cfg ev t b with
      | Some (t', b') =>
          Some (mkBatch (sem b') (set_nth (event_task ev) t' (tasks b'))
                  (b_stats b') (b_stdout b') (b_requested b'))
      | None => None
      end
  | None => None
  end.

Fixpoint run_from (cfg : config) (evs : list event) (b : batch) : option batch :=
  match evs with
  | [] => Some b
  | ev :: rest =>
      match step cfg ev b with
      | Some b' => run_from cfg rest b'
      | None => None
      end
  end.

Definition dashes : string := "--------------------------------------------------------------------------------".

(** The batch when [asyncio.gather] starts: a fresh [RequestStats], a
    semaphore of [concurrency] slots, [num_requests] coroutines, and the
    three lines printed before the clock is read. *)
Definition batch_init (cfg : config) : batch :=
  mkBatch (concurrency cfg) (repeat Waiting (Z.to_nat (num_requests cfg)))
          RequestStats_init
          [Msg ("开始发送 " ++ str_of_int (num_requests cfg) ++ " 个并发请求 (并发度: "
                  ++ str_of_int (concurrency cfg) ++ ")...");
           Msg ("目标URL: " ++ base_url cfg ++ "/user?id=<" ++ str_of_int (min_id cfg)
                  ++ "-" ++ str_of_int (max_id cfg) ++ ">");
           Msg dashes]
          [].

(** [asyncio.gather] with [return_exceptions=True] returns when every
    coroutine has finished, whether it returned or raised. *)
Definition finished (b : batch) : bool := forallb is_done (tasks b).

(** The clock readings around [asyncio.gather]. *)
Record timing := mkTiming { gather_start : Qc; gather_end : Qc }.

(** [qps = num_requests / total_time if total_time > 0 else 0] *)
Definition qps (num_requests : Z) (total_time : Qc) : Qc :=
  if Qc_ltb (Qc_of_Z 0) total_time then (Qc_of_Z num_requests / total_time)%Qc
  else Qc_of_Z 0.

(** [run_concurrent_requests] under the schedule [evs]: once [gather]
    has returned, the elapsed time and the rate are printed and the
    function returns [stats]. A schedule that is not a run of the batch,
    or leaves a coroutine unfinished, gives no result. *)
Definition run_concurrent_requests (cfg : config) (tm : timing) (evs : list event)
  : option batch :=
  match run_from cfg evs (batch_init cfg) with
  | Some b =>
      if finished b then
        let total_time := (gather_end tm - gather_start tm)%Qc in
        Some (mkBatch (sem b) (tasks b) (b_stats b)
                (b_stdout b ++ [Msg dashes; LineElapsed total_time;
                                LineQps (qps (num_requests cfg) total_time)])
                (b_requested b))
      else None
  | None => None
  end.

(** An attempt is interrupted when an exception that is not an
    [Exception] (a cancellation) is raised inside it. *)
Definition interrupted (env : attempt) : bool :=
  match get_outcome env with
  | GetRaises e => negb (is_Exception e)
  | GetResponse _ =>
      match text_outcome env with
      | TextRaises e => negb (is_Exception e)
      | TextBody _ => false
      end
  end.

Definition uninterrupted (ev : event) : Prop :=
  match ev with
  | Complete _ env => interrupted env = false
  | _ => True
  end.

(** ** [main] *)






(** ** [print_statistics] *)







(** * The script with rounding, code points and a fallible [print]

    Module [Py] repeats [get_summary], [make_request] and
    [run_concurrent_requests] with three points of Python kept:
    - every operation on floats rounds its exact result to a float, by
      [rnd];
    - [content[:n]] keeps [n] code points of the text, not [n] bytes;
    - [print] raises when standard output refuses the line. *)

Module Py.

(** ** [str] *)

(** In UTF-8 a code point is a lead byte followed by its continuation
    bytes, the bytes [10xxxxxx]. *)
Definition is_continuation (c : ascii) : bool :=
  let n := N_of_ascii c in
  ((128 <=? n)%N && (n <? 192)%N)%bool.

(** [len(s)] *)
Fixpoint len (s : string) : nat :=
  match s with
  | EmptyString => O
  | String c rest => if is_continuation c then len rest else S (len rest)
  end.

(** [s[:n]]: the first [n] code points, each with its continuation
    bytes. *)
Fixpoint slice (n : nat) (s : string) : string :=
  match s with
  | EmptyString => EmptyString
  | String c rest =>
      if is_continuation c then String c (slice n rest)
      else match n with
           | O => EmptyString
           | S k => String c (slice k rest)
           end
  end.

(** ** Standard output *)

(** What the two [print] calls that [make_request] can reach do: the
    one at the end of the [try] block and the one at the end of a
    handler each write their line, or raise. *)
Record console := mkConsole {
  progress_print : option exn;
  handler_print : option exn
}.

(** [print(...)] *)
Definition print (raises : option exn) (l : line) : M unit :=
  match raises with
  | None => print l
  | Some e => raise e
  end.

(** ** [make_request] *)

(** The coroutine, statement by statement. Both [print] calls of the
    [try] block come after the call on [stats], inside the block: what
    they raise is handled by the [except] clauses below. *)
Definition make_request (out : console) (env : attempt) (base_url : string)
    (min_id max_id : Z) : M unit :=
  user_id <- random_randint min_id max_id (rand_id env) ;;
  let url := base_url ++ "/user?id=" ++ str_of_int user_id in
  start_time <- time_time ;;
  try_except
    (status <- session_get env url ;;
     end_time <- time_time ;;
     let response_time := (end_time - start_time)%Qc in
     content <- response_text env ;;
     if status =? 200 then
       on_stats (add_success response_time) ;;;
       print (progress_print out) (LineOk user_id status response_time)
     else
       let error_msg := "HTTP " ++ str_of_int status ++ ": " ++ slice 100 content in
       on_stats (add_failure error_msg response_time) ;;;
       print (progress_print out)
             (LineHttpError user_id status response_time (slice 50 content)))
    [ (is_ClientError,
       fun e =>
         end_time <- time_time ;;
         let response_time := (end_time - start_time)%Qc in
         let error_msg := "ClientError: " ++ exn_str e in
         on_stats (add_failure error_msg response_time) ;;;
         print (handler_print out) (LineClientError user_id (exn_str e)));
      (is_Exception,
       fun e =>
         end_time <- time_time ;;
         let response_time := (end_time - start_time)%Qc in
         let error_msg := "Exception: " ++ exn_str e in
         on_stats (add_failure error_msg response_time) ;;;
         print (handler_print out) (LineException user_id (exn_str e))) ].

(** ** Floats *)

(** The float nearest to a rational: 53 significant bits, a tie going
    to the even significand. The exponent is not bounded here: no
    overflow, no subnormal numbers. *)
Definition pow2 (e : Z) : Q :=
  if 0 <=? e then inject_Z (2 ^ e) else (1 / inject_Z (2 ^ (- e)))%Q.

(** The exponent [e] of a positive rational: [2^e <= a < 2^(e+1)]. The
    difference of the bit lengths of numerator and denominator is [e] or
    [e + 1]. *)
Definition exponent (a : Q) : Z :=
  let e0 := Z.log2 (Qnum a) - Z.log2 (Zpos (Qden a)) in
  if Qle_bool (pow2 e0) a then e0 else e0 - 1.

Definition binary64_Q (q : Q) : Q :=
  let a := Qabs q in
  if Qeq_bool a 0 then 0%Q
  else
    let e := exponent a in
    let significand := round_half_even (a * pow2 (52 - e))%Q in
    let r := (inject_Z significand * pow2 (e - 52))%Q in
    if Qle_bool 0 q then r else (- r)%Q.

Definition binary64 (x : Qc) : Qc := Q2Qc (binary64_Q x).

Section Floats.

(** [rnd x] is the float that an operation returns when its exact
    result is [x]. An [int] operand below [2^53] converts to a float
    without rounding. *)
Variable rnd : Qc -> Qc.

(** [fabs(x)] *)
Definition fabs (x : Qc) : Qc := if Qc_ltb x (Qc_of_Z 0) then (- x)%Qc else x.

(** The loop of [sum] over floats (the script declares Python 3.13 or
    later, where it is Neumaier's compensated summation): [f_result] is
    the running sum, [c] the running compensation.
    [[
      t = f_result + x
      if fabs(f_result) >= fabs(x): c += (f_result - t) + x
      else:                         c += (x - t) + f_result
      f_result = t
    ]] *)
Fixpoint compensated (l : list Qc) (f_result c : Qc) : Qc * Qc :=
  match l with
  | [] => (f_result, c)
  | x :: rest =>
      let t := rnd (f_result + x)%Qc in
      let c' :=
        if Qc_ltb (fabs f_result) (fabs x)
        then rnd (c + rnd (rnd (x - t) + f_result))%Qc
        else rnd (c + rnd (rnd (f_result - t) + x))%Qc in
      compensated rest t c'
  end.

(** [sum(l)]: the first float is added to the [int] 0 the sum starts
    from, the others go through the loop, and the compensation is added
    at the end when it is not zero. *)
Definition sum (l : list Qc) : Qc :=
  match l with
  | [] => Qc_of_Z 0
  | x :: rest =>
      let (f_result, c) := compensated rest (rnd (Qc_of_Z 0 + x)%Qc) (Qc_of_Z 0) in
      if Qc_eq_bool c (Qc_of_Z 0) then f_result else rnd (f_result + c)%Qc
  end.

(** [round(x, ndigits)] on a float: the decimal of [ndigits] places
    nearest to [x], a tie going to the even one, then the float nearest
    to that decimal. *)
Definition round (x : Qc) (ndigits : nat) : Qc := rnd (py_round x ndigits).

Definition avg_response_time (self : RequestStats) : Qc :=
  match response_times self with
  | [] => Qc_of_Z 0
  | l => rnd (sum l / Qc_of_nat (List.length l))%Qc
  end.

(** [successful_requests / total_requests * 100]: the quotient of the
    two [int]s is rounded, then the product. *)
Definition success_rate (self : RequestStats) : Qc :=
  if 0 <? total_requests self
  then rnd (rnd (Qc_of_Z (successful_requests self) / Qc_of_Z (total_requests self))
            * Qc_of_Z 100)%Qc
  else Qc_of_Z 0.

(** [round(x * 1000, 2)]. With no response time recorded the three
    seconds values are the [int] 0 and no float is involved. *)
Definition milliseconds (self : RequestStats) (x : Qc) : Qc :=
  match response_times self with
  | [] => Qc_of_Z 0
  | _ => round (rnd (x * Qc_of_Z 1000)%Qc) 2
  end.

Definition get_summary (self : RequestStats) : Summary :=
  mkSummary (total_requests self)
            (successful_requests self)
            (failed_requests self)
            (success_rate self)
            (milliseconds self (avg_response_time self))
            (milliseconds self (min_response_time self))
            (milliseconds self (max_response_time self))
            (firstn 10 (errors self)).

(** [qps = num_requests / total_time if total_time > 0 else 0] *)
Definition qps (num_requests : Z) (total_time : Qc) : Qc :=
  if Qc_ltb (Qc_of_Z 0) total_time then rnd (Qc_of_Z num_requests / total_time)%Qc
  else Qc_of_Z 0.

End Floats.

(** ** [run_concurrent_requests] *)

(** [bounded_request], one resumption at a time; [out] is what standard
    output does while this coroutine runs [make_request]. *)
Definition bounded_request (cfg : config) (out : console) (ev : event) (t : task)
    (b : batch) : option (task * batch) :=
  match ev, t with
  | Acquire _, Waiting =>
      match Semaphore_acquire (sem b) with
      | Some v => Some (InFlight, with_sem v b)
      | None => None
      end
  | Complete _ env, InFlight =>
      let w := mkWorld (t_start env) (b_stats b) (b_stdout b) (b_requested b) in
      let w' := snd (make_request out env (base_url cfg) (min_id cfg) (max_id cfg) w) in
      Some (Returned, mkBatch (sem b) (tasks b) (stats w') (stdout w') (requested w'))
  | Release _, Returned =>
      Some (Done, with_sem (Semaphore_release (sem b)) b)
  | _, _ => None
  end.

(** One step of the event loop; [outs i] is the console met by
    coroutine [i]. *)
Definition step (cfg : config) (outs : nat -> console) (ev : event) (b : batch)
  : option batch :=
  match nth_error (tasks b) (event_task ev) with
  | Some t =>
      match bounded_request cfg (outs (event_task ev)) ev t b with
      | Some (t', b') =>
          Some (mkBatch (sem b') (set_nth (event_task ev) t' (tasks b'))
                  (b_stats b') (b_stdout b') (b_requested b'))
      | None => None
      end
  | None => None
  end.

Fixpoint run_from (cfg : config) (outs : nat -> console) (evs : list event) (b : batch)
  : option batch :=
  match evs with
  | [] => Some b
  | ev :: rest =>
      match step cfg outs ev b with
      | Some b' => run_from cfg outs rest b'
      | None => None
      end
  end.

(** [run_concurrent_requests] under the schedule [evs].
    [asyncio.Semaphore(concurrency)] raises [ValueError] on a negative
    value, before anything is printed: no result then. The lines the
    function itself prints are taken to be written. *)
Definition run_concurrent_requests (rnd : Qc -> Qc) (cfg : config)
    (outs : nat -> console) (tm : timing) (evs : list event) : option batch :=
  if concurrency cfg <? 0 then None
  else
    match run_from cfg outs evs (batch_init cfg) with
    | Some b =>
        if finished b then
          let total_time := (gather_end tm - gather_start tm)%Qc in
          Some (mkBatch (sem b) (tasks b) (b_stats b)
                  (b_stdout b ++ [Msg dashes; LineElapsed total_time;
                                  LineQps (qps rnd (num_requests cfg) total_time)])%list
                  (b_requested b))
        else None
    | None => None
    end.

End Py.

(** * Notions used in the statements *)

Open Scope list_scope.

(** The sum, minimum, maximum and mean of a list, stated without
    reference to how the code computes them. *)
Definition list_sum_Qc (l : list Qc) : Qc := fold_right Qcplus (Qc_of_Z 0) l.

Definition is_min (m : Qc) (l : list Qc) : Prop :=
  In m l /\ forall y, In y l -> (m <= y)%Qc.

Definition is_max (m : Qc) (l : list Qc) : Prop :=
  In m l /\ forall y, In y l -> (y <= m)%Qc.


(** [k] is the integer nearest to [y], the even one of the two when [y]
    lies half way between them. *)
Definition nearest_even (k : Z) (y : Q) : Prop :=
  (y - (1 # 2) <= inject_Z k)%Q /\ (inject_Z k <= y + (1 # 2))%Q /\
  ((inject_Z k - y == 1 # 2)%Q \/ (y - inject_Z k == 1 # 2)%Q -> Z.even k = true).

(** States of a [RequestStats] object: the fresh one, and what
    [add_success] and [add_failure] make of a reachable one. *)
Inductive reachable_stats : RequestStats -> Prop :=
| reach_init : reachable_stats RequestStats_init
| reach_success s rt : reachable_stats s -> reachable_stats (add_success rt s)
| reach_failure s e rt : reachable_stats s -> reachable_stats (add_failure e rt s).

Definition counts_agree (s : RequestStats) : Prop :=
  total_requests s = successful_requests s + failed_requests s.

(** What one ingestion contributes to each field of the aggregator. *)
Definition latencies_of (o : ingestion) : list Qc :=
  match o with
  | AddSuccess rt => [rt]
  | AddFailure _ rt => if Qc_ltb (Qc_of_Z 0) rt then [rt] else []
  end.

Definition errors_of (o : ingestion) : list string :=
  match o with
  | AddSuccess _ => []
  | AddFailure e _ => [e]
  end.

Definition is_success (o : ingestion) : bool :=
  match o with AddSuccess _ => true | AddFailure _ _ => false end.

Definition count_of (p : ingestion -> bool) (l : list ingestion) : Z :=
  Z.of_nat (List.length (filter p l)).

(** The summary after feeding [l] to a fresh aggregator. *)
Definition summary_of (l : list ingestion) : Summary :=
  get_summary (ingest_all l RequestStats_init).


(** Eleven failed requests with eleven different messages. *)
Definition eleven_failures : list ingestion :=
  map (fun n => AddFailure ("HTTP 500: " ++ str_of_int n) (Q2Qc (1 # 10)))
      [0; 1; 2; 3; 4; 5; 6; 7; 8; 9; 10].

(** The exception raised inside the [try] block of [make_request], if
    any, and the time that has passed since [start_time] when the handler
    reads the clock. *)
Definition raised (env : attempt) : option (exn * Qc) :=
  match get_outcome env with
  | GetRaises e => Some (e, get_delay env)
  | GetResponse _ =>
      match text_outcome env with
      | TextRaises e => Some (e, (get_delay env + text_delay env)%Qc)
      | TextBody _ => None
      end
  end.

(** The response received, if both [session.get] and [response.text]
    return: its status and body. *)
Definition responded (env : attempt) : option (Z * string) :=
  match get_outcome env, text_outcome env with
  | GetResponse status, TextBody content => Some (status, content)
  | _, _ => None
  end.

Definition http_error (status : Z) (content : string) : string :=
  "HTTP " ++ str_of_int status ++ ": " ++ str_take 100 content.

(** The call on [stats] that an attempt leads to; none when the attempt
    is interrupted. *)
Definition outcome_of (env : attempt) : option ingestion :=
  match get_outcome env with
  | GetRaises e =>
      if is_ClientError e then
        Some (AddFailure ("ClientError: " ++ exn_str e) (get_delay env))
      else if is_Exception e then
        Some (AddFailure ("Exception: " ++ exn_str e) (get_delay env))
      else None
  | GetResponse status =>
      match text_outcome env with
      | TextRaises e =>
          if is_ClientError e then
            Some (AddFailure ("ClientError: " ++ exn_str e)
                    (get_delay env + text_delay env)%Qc)
          else if is_Exception e then
            Some (AddFailure ("Exception: " ++ exn_str e)
                    (get_delay env + text_delay env)%Qc)
          else None
      | TextBody content =>
          Some (if status =? 200 then AddSuccess (get_delay env)
                else AddFailure (http_error status content) (get_delay env))
      end
  end.

Ltac world_simpl :=
  cbn [select_handler fst snd clock stats stdout requested ingest].

Ltac run_request :=
  unfold make_request, random_randint, bind, try_except, session_get,
    response_text, time_time, on_stats, print, ret, raise, advance;
  world_simpl.

(** A fresh world, and a server that answers 200 after one second and
    whose body takes two more seconds to arrive. *)
Definition fresh_world : world := mkWorld (Q2Qc 0) RequestStats_init [] [].

Definition slow_body : attempt :=
  mkAttempt 42 (Q2Qc 0) (Q2Qc 1) (GetResponse 200) (Q2Qc 2) (TextBody "ok").


(** The failures the specification calls transport-level: the aiohttp
    client errors and the expiry of the total timeout. *)
Definition transport_level (e : exn) : bool :=
  is_ClientError e ||
  match exn_cls e with TimeoutError => true | _ => false end.

(** A server that never answers: after the 30 seconds of
    [ClientTimeout(total=30)] aiohttp raises [asyncio.TimeoutError()],
    whose [str] is empty. *)
Definition timed_out : attempt :=
  mkAttempt 42 (Q2Qc 0) (Q2Qc 30) (GetRaises (mkExn TimeoutError ""))
            (Q2Qc 0) (TextBody "").

(** A connection that is refused after a tenth of a second. *)
Definition refused : attempt :=
  mkAttempt 42 (Q2Qc 0) (Q2Qc (1 # 10))
            (GetRaises (mkExn ClientConnectorError "Cannot connect to host"))
            (Q2Qc 0) (TextBody "").

(** A request cancelled while it waits for the response. *)
Definition cancelled : attempt :=
  mkAttempt 42 (Q2Qc 0) (Q2Qc 5) (GetRaises (mkExn CancelledError ""))
            (Q2Qc 0) (TextBody "").

Definition count_tasks (p : task -> bool) (l : list task) : Z :=
  Z.of_nat (List.length (filter p l)).

(** The semaphore accounts for every holder: its value and the number
    of coroutines holding a slot add up to [concurrency]. *)
Definition slots_accounted (cfg : config) (b : batch) : Prop :=
  0 <= sem b /\ sem b + count_tasks holds_slot (tasks b) = concurrency cfg.

Definition demo_config : config := mkConfig "http://localhost:8080" 2 1 1 10000.

Definition demo_timing : timing := mkTiming (Q2Qc 0) (Q2Qc 33).

(** Two coroutines served one after the other: the first gets a 200,
    the second runs into the total timeout. *)
Definition demo_schedule : list event :=
  [Acquire 0; Complete 0 slow_body; Release 0;
   Acquire 1; Complete 1 timed_out; Release 1].

(** The attempts completed along a schedule, in order. *)
Fixpoint completions (evs : list event) : list attempt :=
  match evs with
  | [] => []
  | Complete _ env :: rest => env :: completions rest
  | _ :: rest => completions rest
  end.

(** The schedule that serves the coroutines one after the other,
    starting with coroutine [start]. *)
Fixpoint sequential_schedule (start : nat) (envs : list attempt) : list event :=
  match envs with
  | [] => []
  | env :: rest =>
      Acquire start :: Complete start env :: Release start
        :: sequential_schedule (S start) rest
  end.


(** The call on [stats] an attempt leads to, as a list: empty for an
    interrupted attempt. *)
Definition the_outcome (env : attempt) : list ingestion :=
  match outcome_of env with
  | Some o => [o]
  | None => []
  end.

Definition counted (env : attempt) : bool := negb (interrupted env).

(** The URL an attempt requests. *)
Definition url_of (cfg : config) (env : attempt) : string :=
  base_url cfg ++ "/user?id=" ++ str_of_int (rand_id env).

(** The resumptions a coroutine still needs before it is done. *)
Definition remaining (t : task) : nat :=
  match t with
  | Waiting => 3
  | InFlight => 2
  | Returned => 1
  | Done => 0
  end.

Definition work_left (l : list task) : nat := list_sum (map remaining l).

Definition is_waiting (t : task) : bool :=
  match t with Waiting => true | _ => false end.

Definition is_inflight (t : task) : bool :=
  match t with InFlight => true | _ => false end.

Definition is_returned (t : task) : bool :=
  match t with Returned => true | _ => false end.

(** The first coroutine in a given state, if any. *)
Fixpoint find_task (p : task -> bool) (l : list task) : option nat :=
  match l with
  | [] => None
  | t :: rest => if p t then Some O else option_map S (find_task p rest)
  end.

(** An event loop that always resumes some coroutine able to move: one
    whose request has come back, else one about to leave its block, else
    one waiting for a slot. Every request is answered by [env]. *)
Definition next_event (env : attempt) (b : batch) : option event :=
  match find_task is_inflight (tasks b) with
  | Some i => Some (Complete i env)
  | None =>
      match find_task is_returned (tasks b) with
      | Some i => Some (Release i)
      | None =>
          match find_task is_waiting (tasks b) with
          | Some i => Some (Acquire i)
          | None => None
          end
      end
  end.

Fixpoint drain (cfg : config) (env : attempt) (fuel : nat) (b : batch) : list event :=
  match fuel with
  | O => []
  | S fuel' =>
      match next_event env b with
      | Some ev =>
          match step cfg ev b with
          | Some b' => ev :: drain cfg env fuel' b'
          | None => []
          end
      | None => []
      end
  end.




(** A configuration whose range of identifiers is empty. *)
Definition backwards_config : config := mkConfig "http://localhost:8080" 2 1 10 1.

(** ** Notions for the statements about [Py] *)

(** No operation rounds: arithmetic on floats is exact. *)
Definition exact (rnd : Qc -> Qc) : Prop := forall x, rnd x = x.

(** Rounding keeps the order, as rounding to the nearest float does. *)
Definition monotone (rnd : Qc -> Qc) : Prop :=
  forall x y, (x <= y)%Qc -> (rnd x <= rnd y)%Qc.

Fixpoint list_sum_Z (l : list Z) : Z :=
  match l with
  | [] => 0
  | n :: rest => n + list_sum_Z rest
  end.

(** The float sum of [l] is its exact sum: no addition rounded away a
    part of it. *)
Definition sum_is_exact (rnd : Qc -> Qc) (l : list Qc) : Prop :=
  Py.sum rnd l = list_sum_Qc l.

(** [v] is the float nearest to the decimal of two places nearest to
    [y]. *)
Definition float_rounded_2dp (rnd : Qc -> Qc) (v y : Qc) : Prop :=
  exists k : Z,
    v = rnd (Qc_of_Z k / Qc_of_Z 100)%Qc /\ nearest_even k (y * Qc_of_Z 100)%Qc.

(** A rational given by numerator and denominator, and the float
    nearest to it. *)
Definition ratio (a b : Z) : Qc := (Qc_of_Z a / Qc_of_Z b)%Qc.

Definition float_of (a b : Z) : Qc := Py.binary64 (ratio a b).



(** Five requests that each took the float just below 25 microseconds. *)
Definition five_short_requests : RequestStats :=
  let x := float_of 1844674407370955 73786976294838206464 in
  mkStats 5 5 0 [x; x; x; x; x] [].

(** Five latencies as differences of clock readings give them,
    multiples of [2^-22] seconds, whose mean is 503.125 milliseconds. *)
Definition five_clock_differences : RequestStats :=
  let ticks (n : Z) := ratio n (2 ^ 22) in
  mkStats 5 5 0
    [ticks 2110259; ticks 2110259; ticks 2110259; ticks 2110259; ticks 2110260] [].

(** A console that writes every line, and one whose encoding has the
    Chinese text of the banner but neither of the marks U+2713 and
    U+2717 that open a progress line (GBK, for one): each [print] of
    [make_request] raises [UnicodeEncodeError], whose [str] names the
    character by its escape. *)
Definition quiet : Py.console := Py.mkConsole None None.

Definition no_marks : Py.console :=
  Py.mkConsole
    (Some (mkExn UnicodeEncodeError
             "'gbk' codec can't encode character '\u2713' in position 0: illegal multibyte sequence"))
    (Some (mkExn UnicodeEncodeError
             "'gbk' codec can't encode character '\u2717' in position 0: illegal multibyte sequence")).

(** The calls on [stats] made by the handler that takes exception [e],
    [elapsed] seconds after [start_time]: none when no handler takes
    it. *)
Definition handled (e : exn) (elapsed : Qc) : list ingestion :=
  if is_ClientError e then [AddFailure ("ClientError: " ++ exn_str e) elapsed]
  else if is_Exception e then [AddFailure ("Exception: " ++ exn_str e) elapsed]
  else [].

Definition py_http_error (status : Z) (content : string) : string :=
  "HTTP " ++ str_of_int status ++ ": " ++ Py.slice 100 content.

(** The calls on [stats] an attempt leads to, in order, on console
    [out]. *)
Definition py_outcomes (out : Py.console) (env : attempt) : list ingestion :=
  match get_outcome env with
  | GetRaises e => handled e (get_delay env)
  | GetResponse status =>
      match text_outcome env with
      | TextRaises e => handled e (get_delay env + text_delay env)%Qc
      | TextBody content =>
          (if status =? 200 then AddSuccess (get_delay env)
           else AddFailure (py_http_error status content) (get_delay env))
          :: match Py.progress_print out with
             | None => []
             | Some e => handled e (get_delay env + text_delay env)%Qc
             end
      end
  end.

(** The calls on [stats] made along a schedule, in order. *)
Fixpoint py_ingestions (outs : nat -> Py.console) (evs : list event)
  : list ingestion :=
  match evs with
  | [] => []
  | Complete i env :: rest => py_outcomes (outs i) env ++ py_ingestions outs rest
  | _ :: rest => py_ingestions outs rest
  end.

(** One request, one slot. *)
Definition one_request : config := mkConfig "http://localhost:8080" 1 1 1 10000.

Definition one_request_schedule : list event :=
  [Acquire 0; Complete 0 slow_body; Release 0].


(** Forty characters, a hundred and twenty bytes. *)
Definition forty_characters : string :=
  "用户不存在用户不存在用户不存在用户不存在用户不存在用户不存在用户不存在用户不存在".

Definition not_found_long : attempt :=
  mkAttempt 7 (Q2Qc 0) (Q2Qc (1 # 4)) (GetResponse 404) (Q2Qc (1 # 8))
            (TextBody forty_characters).

(** Every byte of the text is below 128. *)
Fixpoint ascii_only (s : string) : bool :=
  match s with
  | EmptyString => true
  | String c rest => (N_of_ascii c <? 128)%N && ascii_only rest
  end.

Ltac py_run_request :=
  unfold Py.make_request, Py.print, random_randint, bind, try_except, session_get,
    response_text, time_time, on_stats, print, ret, raise, advance;
  world_simpl.

(** * Properties *)

(** ** Order and arithmetic on [Qc] *)

Lemma Qc_ltb_lt (x y : Qc) : Qc_ltb x y = true <-> (x < y)%Qc.
Proof.
  unfold Qc_ltb. rewrite Qclt_alt.
  destruct (x ?= y)%Qc; split; intro H; congruence.
Qed.

Lemma Qc_ltb_ge (x y : Qc) : Qc_ltb x y = false <-> (y <= x)%Qc.
Proof.
  split; intro H.
  - apply Qcnot_lt_le. intro L. apply Qc_ltb_lt in L. congruence.
  - destruct (Qc_ltb x y) eqn:E; [|reflexivity].
    apply Qc_ltb_lt in E. exfalso. exact (Qcle_not_lt _ _ H E).
Qed.

Lemma this_Qc_of_Z (z : Z) : this (Qc_of_Z z) == inject_Z z.
Proof. change (Qred (inject_Z z) == inject_Z z). apply Qred_correct. Qed.



(** ** [sum], [min], [max] *)




Lemma py_min_correct (l : list Qc) (x : Qc) : is_min (py_min x l) (x :: l).
Proof.
  revert x. induction l as [|y l IH]; intro x.
  - split; [now left|]. intros z [<-|[]]. apply Qcle_refl.
  - unfold py_min. simpl. fold (py_min (if Qc_ltb y x then y else x) l).
    destruct (IH (if Qc_ltb y x then y else x)) as [Hin Hle].
    destruct (Qc_ltb y x) eqn:E.
    + apply Qc_ltb_lt in E. split.
      * destruct Hin as [<-|Hin]; [right; now left|right; now right].
      * intros z [<-|[<-|Hz]].
        -- apply Qcle_trans with y; [apply Hle; now left|now apply Qclt_le_weak].
        -- apply Hle. now left.
        -- apply Hle. now right.
    + apply Qc_ltb_ge in E. split.
      * destruct Hin as [<-|Hin]; [now left|right; now right].
      * intros z [<-|[<-|Hz]].
        -- apply Hle. now left.
        -- apply Qcle_trans with x; [apply Hle; now left|exact E].
        -- apply Hle. now right.
Qed.

Lemma py_max_correct (l : list Qc) (x : Qc) : is_max (py_max x l) (x :: l).
Proof.
  revert x. induction l as [|y l IH]; intro x.
  - split; [now left|]. intros z [<-|[]]. apply Qcle_refl.
  - unfold py_max. simpl. fold (py_max (if Qc_ltb x y then y else x) l).
    destruct (IH (if Qc_ltb x y then y else x)) as [Hin Hle].
    destruct (Qc_ltb x y) eqn:E.
    + apply Qc_ltb_lt in E. split.
      * destruct Hin as [<-|Hin]; [right; now left|right; now right].
      * intros z [<-|[<-|Hz]].
        -- apply Qcle_trans with y; [now apply Qclt_le_weak|apply Hle; now left].
        -- apply Hle. now left.
        -- apply Hle. now right.
    + apply Qc_ltb_ge in E. split.
      * destruct Hin as [<-|Hin]; [now left|right; now right].
      * intros z [<-|[<-|Hz]].
        -- apply Hle. now left.
        -- apply Qcle_trans with x; [exact E|apply Hle; now left].
        -- apply Hle. now right.
Qed.






Lemma min_response_time_min (s : RequestStats) :
  response_times s <> [] -> is_min (min_response_time s) (response_times s).
Proof.
  unfold min_response_time. destruct (response_times s) as [|x l]; [congruence|].
  intros _. apply py_min_correct.
Qed.

Lemma max_response_time_max (s : RequestStats) :
  response_times s <> [] -> is_max (max_response_time s) (response_times s).
Proof.
  unfold max_response_time. destruct (response_times s) as [|x l]; [congruence|].
  intros _. apply py_max_correct.
Qed.

(** ** Rounding *)

Lemma round_half_even_nearest (q : Q) : nearest_even (round_half_even q) q.
Proof.
  unfold nearest_even, round_half_even.
  pose proof (Qfloor_le q) as Hlo.
  pose proof (Qlt_floor q) as Hhi.
  rewrite inject_Z_plus in Hhi.
  change (inject_Z 1) with 1%Q in Hhi.
  set (f := Qfloor q) in *.
  destruct (q - inject_Z f ?= 1 # 2)%Q eqn:C.
  - apply Qeq_alt in C.
    destruct (Z.even f) eqn:Ev.
    + split; [lra|split; [lra|]]. intros _. exact Ev.
    + rewrite inject_Z_plus. change (inject_Z 1) with 1%Q.
      split; [lra|split; [lra|]]. intros _.
      rewrite Z.even_add, Ev. reflexivity.
  - apply Qlt_alt in C. split; [lra|split; [lra|]].
    intros [H|H]; lra.
  - apply Qgt_alt in C.
    rewrite inject_Z_plus. change (inject_Z 1) with 1%Q.
    split; [lra|split; [lra|]].
    intros [H|H]; lra.
Qed.

Lemma nearest_even_unique (k k' : Z) (y : Q) :
  nearest_even k y -> nearest_even k' y -> k = k'.
Proof.
  intros (L1 & U1 & E1) (L2 & U2 & E2).
  assert (D1 : (inject_Z k <= inject_Z (k' + 1))%Q)
    by (rewrite inject_Z_plus; change (inject_Z 1) with 1%Q; lra).
  assert (D2 : (inject_Z k' <= inject_Z (k + 1))%Q)
    by (rewrite inject_Z_plus; change (inject_Z 1) with 1%Q; lra).
  rewrite <- Zle_Qle in D1, D2.
  assert (C : k = k' \/ k = k' + 1 \/ k' = k + 1) by lia.
  destruct C as [C|[C|C]]; [exact C| |]; exfalso; subst.
  - rewrite inject_Z_plus in *. change (inject_Z 1) with 1%Q in *.
    assert (T1 : (inject_Z k' + 1 - y == 1 # 2)%Q) by lra.
    assert (T2 : (y - inject_Z k' == 1 # 2)%Q) by lra.
    specialize (E1 (or_introl T1)). specialize (E2 (or_intror T2)).
    rewrite Z.even_add, E2 in E1. discriminate.
  - rewrite inject_Z_plus in *. change (inject_Z 1) with 1%Q in *.
    assert (T1 : (inject_Z k + 1 - y == 1 # 2)%Q) by lra.
    assert (T2 : (y - inject_Z k == 1 # 2)%Q) by lra.
    specialize (E2 (or_introl T1)). specialize (E1 (or_intror T2)).
    rewrite Z.even_add, E1 in E2. discriminate.
Qed.


(** ** The aggregator *)

Lemma ingest_all_app (l1 l2 : list ingestion) (s : RequestStats) :
  ingest_all (l1 ++ l2) s = ingest_all l2 (ingest_all l1 s).
Proof. apply fold_left_app. Qed.

Lemma ingest_all_fields (l : list ingestion) (s : RequestStats) :
  total_requests (ingest_all l s) = total_requests s + Z.of_nat (List.length l) /\
  successful_requests (ingest_all l s) = successful_requests s + count_of is_success l /\
  failed_requests (ingest_all l s)
    = failed_requests s + count_of (fun o => negb (is_success o)) l /\
  response_times (ingest_all l s) = response_times s ++ flat_map latencies_of l /\
  errors (ingest_all l s) = errors s ++ flat_map errors_of l.
Proof.
  revert s. induction l as [|o l IH]; intro s.
  - unfold count_of. simpl. rewrite !app_nil_r. repeat split; lia.
  - change (ingest_all (o :: l) s) with (ingest_all l (ingest o s)).
    destruct (IH (ingest o s)) as (T & S & F & R & E).
    rewrite T, S, F, R, E. unfold count_of.
    destruct o as [rt|e rt]; cbn [ingest add_success add_failure total_requests
      successful_requests failed_requests response_times errors filter is_success
      negb flat_map latencies_of errors_of List.length].
    + rewrite <- !app_assoc. repeat split; lia.
    + destruct (Qc_ltb (Qc_of_Z 0) rt); rewrite <- ?app_assoc;
        repeat split; lia.
Qed.

Lemma counts_agree_init : counts_agree RequestStats_init.
Proof. reflexivity. Qed.

Lemma counts_agree_add_success s rt : counts_agree s -> counts_agree (add_success rt s).
Proof. unfold counts_agree, add_success. simpl. lia. Qed.

Lemma counts_agree_add_failure s e rt : counts_agree s -> counts_agree (add_failure e rt s).
Proof. unfold counts_agree, add_failure. simpl. lia. Qed.

(** C3: [total_requests == successful_requests + failed_requests] in
    every reachable state of the aggregator: it holds for the object
    [__init__] builds and every [add_success] and [add_failure] keeps it. *)
Theorem stats_counts_invariant (s : RequestStats) :
  reachable_stats s -> counts_agree s.
Proof.
  induction 1.
  - apply counts_agree_init.
  - now apply counts_agree_add_success.
  - now apply counts_agree_add_failure.
Qed.

Lemma stats_counts_invariant_witness :
  counts_agree
    (add_failure "HTTP 500: oops" (Q2Qc (1 # 4))
       (add_success (Q2Qc (1 # 10)) RequestStats_init)).
Proof.
  apply stats_counts_invariant.
  apply reach_failure, reach_success, reach_init.
Defined.

(** ** Order of ingestion *)








(** ** One request *)

Lemma Qc_elapsed (c d : Qc) : (c + d - c = d)%Qc.
Proof. ring. Qed.

Lemma Qc_elapsed2 (c d d' : Qc) : (c + d + d' - c = d + d')%Qc.
Proof. ring. Qed.

Lemma make_request_stats env burl lo hi w :
  lo <= hi ->
  stats (snd (make_request env burl lo hi w))
  = match outcome_of env with
    | Some o => ingest o (stats w)
    | None => stats w
    end.
Proof.
  intro H. apply Z.leb_le in H.
  unfold outcome_of. run_request. rewrite H. world_simpl.
  destruct (get_outcome env) as [status|e].
  - destruct (text_outcome env) as [content|e].
    + destruct (status =? 200); world_simpl; rewrite Qc_elapsed; reflexivity.
    + world_simpl.
      destruct (is_ClientError e);
        [world_simpl; rewrite Qc_elapsed2; reflexivity|].
      destruct (is_Exception e);
        [world_simpl; rewrite Qc_elapsed2; reflexivity|].
      reflexivity.
  - world_simpl.
    destruct (is_ClientError e);
      [world_simpl; rewrite Qc_elapsed; reflexivity|].
    destruct (is_Exception e);
      [world_simpl; rewrite Qc_elapsed; reflexivity|].
    reflexivity.
Qed.

Lemma make_request_requested env burl lo hi w :
  lo <= hi ->
  requested (snd (make_request env burl lo hi w))
  = requested w ++ [(burl ++ "/user?id=" ++ str_of_int (rand_id env))%string].
Proof.
  intro H. apply Z.leb_le in H.
  run_request. rewrite H. world_simpl.
  destruct (get_outcome env) as [status|e].
  - destruct (text_outcome env) as [content|e].
    + destruct (status =? 200); reflexivity.
    + world_simpl. destruct (is_ClientError e); [reflexivity|].
      destruct (is_Exception e); reflexivity.
  - world_simpl. destruct (is_ClientError e); [reflexivity|].
    destruct (is_Exception e); reflexivity.
Qed.


Lemma outcome_of_uninterrupted env :
  interrupted env = false -> exists o, outcome_of env = Some o.
Proof.
  unfold interrupted, outcome_of.
  destruct (get_outcome env) as [status|e].
  - destruct (text_outcome env) as [content|e].
    + intros _. eexists. reflexivity.
    + intro H. destruct (is_ClientError e); [eexists; reflexivity|].
      destruct (is_Exception e); [eexists; reflexivity|discriminate].
  - intro H. destruct (is_ClientError e); [eexists; reflexivity|].
    destruct (is_Exception e); [eexists; reflexivity|discriminate].
Qed.




(** C7 as the specification states it fails for the total timeout: the
    exception is not an [aiohttp.ClientError], so the second handler
    takes it and the message starts with ["Exception: "]. *)
Lemma total_timeout_is_not_client_error :
  let w' := snd (make_request timed_out "http://localhost:8080" 1 10000 fresh_world) in
  raised timed_out = Some (mkExn TimeoutError "", Q2Qc 30) /\
  transport_level (mkExn TimeoutError "") = true /\
  errors (stats w') = ["Exception: "] /\
  errors (stats w') <> ["ClientError: "].
Proof.
  cbv zeta. rewrite make_request_stats by lia.
  repeat split. cbn. discriminate.
Qed.

(** C7, amended: an exception raised inside the attempt that is an
    [aiohttp.ClientError] makes the attempt a failure with the message
    ["ClientError: {detail}"]; any other [Exception], the
    [asyncio.TimeoutError] of the total timeout among them, makes it a
    failure with the message ["Exception: {detail}"]. In both cases the
    time passed to [add_failure] is the time elapsed from [start_time] to
    the failure, and the aggregator keeps it as a latency when it is
    positive. *)
Theorem failure_classification env burl lo hi w e elapsed :
  lo <= hi ->
  raised env = Some (e, elapsed) ->
  is_Exception e = true ->
  let w' := snd (make_request env burl lo hi w) in
  let prefix := if is_ClientError e then "ClientError: " else "Exception: " in
  stats w' = add_failure (prefix ++ exn_str e) elapsed (stats w) /\
  total_requests (stats w') = total_requests (stats w) + 1 /\
  failed_requests (stats w') = failed_requests (stats w) + 1 /\
  errors (stats w') = errors (stats w) ++ [(prefix ++ exn_str e)%string] /\
  ((Qc_of_Z 0 < elapsed)%Qc ->
   response_times (stats w') = response_times (stats w) ++ [elapsed]).
Proof.
  intros H R X. cbv zeta.
  assert (O : outcome_of env
              = Some (AddFailure ((if is_ClientError e then "ClientError: "
                                   else "Exception: ") ++ exn_str e) elapsed)).
  { unfold raised in R. unfold outcome_of.
    destruct (get_outcome env) as [status|e'].
    - destruct (text_outcome env) as [content|e']; [discriminate|].
      injection R as -> <-. rewrite X. destruct (is_ClientError e); reflexivity.
    - injection R as -> <-. rewrite X. destruct (is_ClientError e); reflexivity. }
  rewrite make_request_stats, O by assumption. cbn [ingest].
  repeat split.
  intro P. apply Qc_ltb_lt in P. unfold add_failure. cbn [response_times].
  now rewrite P.
Qed.

Lemma failure_classification_witness :
  errors (stats (snd (make_request refused "http://localhost:8080" 1 10000 fresh_world)))
  = ["ClientError: Cannot connect to host"].
Proof.
  apply (failure_classification refused "http://localhost:8080" 1 10000 fresh_world
           (mkExn ClientConnectorError "Cannot connect to host") (Q2Qc (1 # 10))).
  - lia.
  - reflexivity.
  - reflexivity.
Defined.

(** ** The batch *)

Lemma set_nth_length {A} (i : nat) (x : A) (l : list A) :
  List.length (set_nth i x l) = List.length l.
Proof.
  revert i. induction l as [|y l IH]; intros [|i]; simpl; auto.
Qed.

Lemma count_tasks_set_nth (p : task -> bool) (l : list task) (i : nat) (t t' : task) :
  nth_error l i = Some t ->
  count_tasks p (set_nth i t' l) = count_tasks p l - Z.b2z (p t) + Z.b2z (p t').
Proof.
  unfold count_tasks. revert i. induction l as [|y l IH]; intros [|i] H;
    try discriminate.
  - injection H as ->. simpl. destruct (p t), (p t'); simpl List.length; simpl Z.b2z; lia.
  - simpl in H. specialize (IH i H). simpl.
    destruct (p y); simpl List.length; lia.
Qed.

Lemma count_tasks_repeat_Waiting (p : task -> bool) (n : nat) :
  p Waiting = false -> count_tasks p (repeat Waiting n) = 0.
Proof.
  intro H. unfold count_tasks. induction n as [|n IH]; [reflexivity|].
  simpl. now rewrite H.
Qed.

Lemma count_tasks_all_done (l : list task) :
  forallb is_done l = true -> count_tasks past_request l = Z.of_nat (List.length l).
Proof.
  unfold count_tasks. induction l as [|t l IH]; [reflexivity|].
  simpl. intro H. apply andb_true_iff in H as [D H].
  destruct t; try discriminate. simpl. f_equal. f_equal.
  apply Nat2Z.inj. now apply IH.
Qed.

Lemma count_tasks_le_length (p : task -> bool) (l : list task) :
  0 <= count_tasks p l <= Z.of_nat (List.length l).
Proof.
  unfold count_tasks. pose proof (filter_length_le p l). lia.
Qed.

Lemma count_tasks_mono (p q : task -> bool) (l : list task) :
  (forall t, p t = true -> q t = true) -> count_tasks p l <= count_tasks q l.
Proof.
  intro H. unfold count_tasks. apply inj_le.
  induction l as [|t l IH]; [apply Nat.le_refl|].
  simpl. destruct (p t) eqn:E.
  - rewrite (H t E). simpl. lia.
  - destruct (q t); simpl; lia.
Qed.

Lemma nth_error_set_nth {A} (i : nat) (x y : A) (l : list A) :
  nth_error l i = Some y -> nth_error (set_nth i x l) i = Some x.
Proof.
  revert i. induction l as [|z l IH]; intros [|i] N; try discriminate; simpl in *; auto.
Qed.

Lemma slots_accounted_init (cfg : config) :
  0 <= concurrency cfg -> slots_accounted cfg (batch_init cfg).
Proof.
  intro H. unfold slots_accounted, batch_init. cbn [sem tasks].
  rewrite count_tasks_repeat_Waiting by reflexivity. lia.
Qed.

Lemma step_inv (cfg : config) (ev : event) (b b' : batch) :
  step cfg ev b = Some b' ->
  (exists i, ev = Acquire i /\ nth_error (tasks b) i = Some Waiting /\ 0 < sem b /\
     b' = mkBatch (sem b - 1) (set_nth i InFlight (tasks b))
            (b_stats b) (b_stdout b) (b_requested b)) \/
  (exists i env, ev = Complete i env /\ nth_error (tasks b) i = Some InFlight /\
     let w := mkWorld (t_start env) (b_stats b) (b_stdout b) (b_requested b) in
     let w' := snd (make_request env (base_url cfg) (min_id cfg) (max_id cfg) w) in
     b' = mkBatch (sem b) (set_nth i Returned (tasks b))
            (stats w') (stdout w') (requested w')) \/
  (exists i, ev = Release i /\ nth_error (tasks b) i = Some Returned /\
     b' = mkBatch (sem b + 1) (set_nth i Done (tasks b))
            (b_stats b) (b_stdout b) (b_requested b)).
Proof.
  unfold step. intro S.
  destruct (nth_error (tasks b) (event_task ev)) as [t|] eqn:N; [|discriminate].
  destruct ev as [i|i env|i], t; cbn [bounded_request event_task] in *; try discriminate.
  - unfold Semaphore_acquire in S.
    destruct (0 <? sem b) eqn:L; [|discriminate]. apply Z.ltb_lt in L.
    injection S as <-. left. exists i. repeat split; assumption.
  - injection S as <-. right. left. exists i, env. repeat split. assumption.
  - injection S as <-. right. right. exists i. repeat split. assumption.
Qed.

Lemma step_acquire (cfg : config) (i : nat) (b : batch) :
  nth_error (tasks b) i = Some Waiting -> 0 < sem b ->
  step cfg (Acquire i) b
  = Some (mkBatch (sem b - 1) (set_nth i InFlight (tasks b))
            (b_stats b) (b_stdout b) (b_requested b)).
Proof.
  intros N L. unfold step. cbn [event_task]. rewrite N.
  cbn [bounded_request]. unfold Semaphore_acquire.
  apply Z.ltb_lt in L. now rewrite L.
Qed.

Lemma step_complete (cfg : config) (i : nat) (env : attempt) (b : batch) :
  nth_error (tasks b) i = Some InFlight ->
  step cfg (Complete i env) b
  = let w := mkWorld (t_start env) (b_stats b) (b_stdout b) (b_requested b) in
    let w' := snd (make_request env (base_url cfg) (min_id cfg) (max_id cfg) w) in
    Some (mkBatch (sem b) (set_nth i Returned (tasks b))
            (stats w') (stdout w') (requested w')).
Proof. intro N. unfold step. cbn [event_task]. now rewrite N. Qed.

Lemma step_release (cfg : config) (i : nat) (b : batch) :
  nth_error (tasks b) i = Some Returned ->
  step cfg (Release i) b
  = Some (mkBatch (sem b + 1) (set_nth i Done (tasks b))
            (b_stats b) (b_stdout b) (b_requested b)).
Proof. intro N. unfold step. cbn [event_task]. now rewrite N. Qed.

Lemma slots_accounted_step (cfg : config) (ev : event) (b b' : batch) :
  step cfg ev b = Some b' -> slots_accounted cfg b -> slots_accounted cfg b'.
Proof.
  unfold slots_accounted. intros S [P E].
  destruct (step_inv _ _ _ _ S)
    as [(i & -> & N & L & ->)|[(i & env & -> & N & ->)|(i & -> & N & ->)]];
    cbn [sem tasks]; rewrite (count_tasks_set_nth _ _ _ _ _ N); simpl Z.b2z; lia.
Qed.

Lemma slots_accounted_run (cfg : config) (evs : list event) (b b' : batch) :
  run_from cfg evs b = Some b' -> slots_accounted cfg b -> slots_accounted cfg b'.
Proof.
  revert b. induction evs as [|ev evs IH]; intros b R I.
  - injection R as <-. exact I.
  - simpl in R. destruct (step cfg ev b) as [b1|] eqn:S; [|discriminate].
    apply (IH b1 R). eapply slots_accounted_step; eauto.
Qed.

(** C4: in every state a batch with [concurrency = k] can reach, at most
    [k] coroutines hold the semaphore, the semaphore's value is [k] minus
    their number, and a call of [make_request] can only complete in a
    coroutine that holds a slot: it runs between the acquire and the
    release of [async with semaphore]. *)
Theorem at_most_k_hold_the_limiter (cfg : config) (evs : list event) (b : batch) :
  0 < concurrency cfg ->
  run_from cfg evs (batch_init cfg) = Some b ->
  count_tasks holds_slot (tasks b) <= concurrency cfg /\
  sem b = concurrency cfg - count_tasks holds_slot (tasks b) /\
  count_tasks (fun t => match t with InFlight => true | _ => false end) (tasks b)
    <= count_tasks holds_slot (tasks b) /\
  (forall i env b', step cfg (Complete i env) b = Some b' ->
     exists t, nth_error (tasks b) i = Some t /\ holds_slot t = true /\
               nth_error (tasks b') i = Some Returned) /\
  (forall i b', step cfg (Acquire i) b = Some b' ->
     count_tasks holds_slot (tasks b) < concurrency cfg).
Proof.
  intros K R.
  assert (I : slots_accounted cfg b).
  { apply (slots_accounted_run cfg evs _ _ R), slots_accounted_init. lia. }
  destruct I as [P E].
  split; [lia|]. split; [lia|]. split; [|split].
  - apply count_tasks_mono. intros [| | |]; auto.
  - intros i env b' S.
    destruct (step_inv _ _ _ _ S)
      as [(j & X & _)|[(j & env' & X & N & B)|(j & X & _)]]; try discriminate.
    injection X as <- <-. cbv zeta in B. subst b'.
    exists InFlight. repeat split; [assumption|]. cbn [tasks].
    eapply nth_error_set_nth; eauto.
  - intros i b' S.
    destruct (step_inv _ _ _ _ S)
      as [(j & X & N & L & _)|[(j & env' & X & _)|(j & X & _)]]; try discriminate.
    lia.
Qed.

Lemma at_most_k_hold_the_limiter_witness :
  exists b,
    run_from demo_config [Acquire 0] (batch_init demo_config) = Some b /\
    count_tasks holds_slot (tasks b) <= concurrency demo_config.
Proof.
  eexists. split; [reflexivity|].
  apply (at_most_k_hold_the_limiter demo_config [Acquire 0%nat]).
  - reflexivity.
  - reflexivity.
Defined.






(** ** A batch can run to completion *)




Lemma sequential_schedule_completions (start : nat) (envs : list attempt) :
  completions (sequential_schedule start envs) = envs.
Proof.
  revert start. induction envs as [|env envs IH]; intro start; simpl; congruence.
Qed.




(** ** Validation in [main] *)




(** * Further properties of the aggregator *)

Lemma Qc_of_Z_le (a b : Z) : a <= b -> (Qc_of_Z a <= Qc_of_Z b)%Qc.
Proof.
  intro H. unfold Qcle. rewrite !this_Qc_of_Z, <- Zle_Qle. exact H.
Qed.

Lemma Qc_of_Z_lt (a b : Z) : a < b -> (Qc_of_Z a < Qc_of_Z b)%Qc.
Proof.
  intro H. unfold Qclt. rewrite !this_Qc_of_Z, <- Zlt_Qlt. exact H.
Qed.

Lemma round_half_even_mono (x y : Q) :
  (x <= y)%Q -> round_half_even x <= round_half_even y.
Proof.
  intro H.
  destruct (round_half_even_nearest x) as (Lx & Ux & Ex).
  destruct (round_half_even_nearest y) as (Ly & Uy & Ey).
  set (kx := round_half_even x) in *. set (ky := round_half_even y) in *.
  destruct (Z_le_gt_dec kx ky) as [L|G]; [exact L|exfalso].
  assert (D : (inject_Z (ky + 1) <= inject_Z kx)%Q) by (rewrite <- Zle_Qle; lia).
  rewrite inject_Z_plus in D. change (inject_Z 1) with 1%Q in D.
  assert (Tx : (inject_Z kx - x == 1 # 2)%Q) by lra.
  assert (Ty : (y - inject_Z ky == 1 # 2)%Q) by lra.
  specialize (Ex (or_introl Tx)). specialize (Ey (or_intror Ty)).
  assert (K : kx = ky + 1).
  { assert (D2 : (inject_Z kx <= inject_Z (ky + 1))%Q)
      by (rewrite inject_Z_plus; change (inject_Z 1) with 1%Q; lra).
    rewrite <- Zle_Qle in D2. lia. }
  rewrite K, Z.even_add, Ey in Ex. discriminate.
Qed.

Lemma Qc_of_Z_pow10_pos (n : nat) : (Qc_of_Z 0 < Qc_of_Z (10 ^ Z.of_nat n))%Qc.
Proof. apply Qc_of_Z_lt. apply Z.pow_pos_nonneg; lia. Qed.

Lemma Qcinv_nonneg (z : Qc) : (Qc_of_Z 0 < z)%Qc -> (Qc_of_Z 0 <= / z)%Qc.
Proof.
  unfold Qclt, Qcle, Qcinv, Q2Qc. cbn [this]. rewrite Qred_correct, this_Qc_of_Z.
  intro H. apply Qinv_le_0_compat. now apply Qlt_le_weak.
Qed.

Lemma py_round_mono (x y : Qc) (n : nat) :
  (x <= y)%Qc -> (py_round x n <= py_round y n)%Qc.
Proof.
  intro H. unfold py_round.
  pose proof (Qc_of_Z_pow10_pos n) as P.
  set (scale := Qc_of_Z (10 ^ Z.of_nat n)) in *.
  unfold Qcdiv. apply Qcmult_le_compat_r; [|now apply Qcinv_nonneg].
  apply Qc_of_Z_le, round_half_even_mono.
  change (x * scale <= y * scale)%Qc.
  apply Qcmult_le_compat_r; [exact H|now apply Qclt_le_weak].
Qed.

Lemma reachable_counts_agree (s : RequestStats) :
  reachable_stats s -> counts_agree s.
Proof.
  induction 1.
  - apply counts_agree_init.
  - now apply counts_agree_add_success.
  - now apply counts_agree_add_failure.
Qed.

Lemma reachable_counts_nonneg (s : RequestStats) :
  reachable_stats s -> 0 <= successful_requests s /\ 0 <= failed_requests s.
Proof.
  induction 1 as [|s rt R IH|s e rt R IH]; cbn; lia.
Qed.

(** X1: in every state the aggregator can reach, the counts are not
    negative, there is one error message per failed request, and the
    number of recorded latencies lies between the number of successes and
    the number of requests. *)
Theorem stats_lists_match_counts (s : RequestStats) :
  reachable_stats s ->
  0 <= successful_requests s /\
  0 <= failed_requests s /\
  Z.of_nat (List.length (errors s)) = failed_requests s /\
  successful_requests s <= Z.of_nat (List.length (response_times s)) /\
  Z.of_nat (List.length (response_times s)) <= total_requests s.
Proof.
  intro R. pose proof (reachable_counts_agree s R) as C.
  induction R as [|s rt R IH|s e rt R IH].
  - cbn. lia.
  - specialize (IH (reachable_counts_agree s R)). unfold counts_agree in *.
    cbn [add_success successful_requests failed_requests errors response_times
         total_requests] in *.
    rewrite length_app. cbn [List.length]. lia.
  - specialize (IH (reachable_counts_agree s R)). unfold counts_agree in *.
    cbn [add_failure successful_requests failed_requests errors response_times
         total_requests] in *.
    destruct (Qc_ltb (Qc_of_Z 0) rt); rewrite ?length_app; cbn [List.length]; lia.
Qed.

Lemma stats_lists_match_counts_witness :
  Z.of_nat (List.length (errors (add_failure "HTTP 500: oops" (Q2Qc 0)
                                   (add_success (Q2Qc (1 # 10)) RequestStats_init))))
  = failed_requests (add_failure "HTTP 500: oops" (Q2Qc 0)
                       (add_success (Q2Qc (1 # 10)) RequestStats_init)).
Proof.
  apply (stats_lists_match_counts
           (add_failure "HTTP 500: oops" (Q2Qc 0)
              (add_success (Q2Qc (1 # 10)) RequestStats_init))).
  apply reach_failure, reach_success, reach_init.
Defined.

Lemma this_rate (a b : Z) :
  this (Qc_of_Z a / Qc_of_Z b * Qc_of_Z 100)%Qc
  == (inject_Z a / inject_Z b * inject_Z 100)%Q.
Proof.
  unfold Qcdiv, Qcmult, Qcinv, Q2Qc. cbn [this].
  rewrite !Qred_correct, !this_Qc_of_Z. reflexivity.
Qed.

Lemma Qc_eq_this (x y : Qc) : x = y <-> this x == this y.
Proof.
  split; [intros ->; reflexivity|apply Qc_is_canon].
Qed.

Lemma ratio_bounds (a b : Z) :
  0 <= a <= b -> 0 < b ->
  (0 <= inject_Z a / inject_Z b)%Q /\ (inject_Z a / inject_Z b <= 1)%Q /\
  inject_Z a == inject_Z b * (inject_Z a / inject_Z b).
Proof.
  intros [A B] P.
  assert (Pb : (0 < inject_Z b)%Q) by (change 0%Q with (inject_Z 0); now rewrite <- Zlt_Qlt).
  assert (Pa : (0 <= inject_Z a)%Q) by (change 0%Q with (inject_Z 0); now rewrite <- Zle_Qle).
  assert (Pab : (inject_Z a <= inject_Z b)%Q) by (now rewrite <- Zle_Qle).
  split; [|split].
  - apply Qle_shift_div_l; [exact Pb|]. lra.
  - apply Qle_shift_div_r; [exact Pb|]. lra.
  - symmetry. apply Qmult_div_r. lra.
Qed.

(** X3: in every state the aggregator can reach, the success rate of the
    summary is a percentage between 0 and 100; once a request has been
    counted it is 100 exactly when no request failed and 0 exactly when
    none succeeded. *)
Theorem success_rate_is_a_percentage (s : RequestStats) :
  reachable_stats s ->
  (Qc_of_Z 0 <= s_success_rate (get_summary s))%Qc /\
  (s_success_rate (get_summary s) <= Qc_of_Z 100)%Qc /\
  (0 < total_requests s ->
   (s_success_rate (get_summary s) = Qc_of_Z 100 <-> failed_requests s = 0) /\
   (s_success_rate (get_summary s) = Qc_of_Z 0 <-> successful_requests s = 0)).
Proof.
  intro R.
  pose proof (reachable_counts_agree s R) as C. unfold counts_agree in C.
  destruct (reachable_counts_nonneg s R) as (S0 & F0).
  unfold get_summary. cbn [s_success_rate]. unfold success_rate.
  destruct (0 <? total_requests s) eqn:T.
  - apply Z.ltb_lt in T.
    destruct (ratio_bounds (successful_requests s) (total_requests s)) as (L & U & M);
      [lia|lia|].
    unfold Qcle. rewrite !Qc_eq_this, this_rate, !this_Qc_of_Z.
    remember (inject_Z (successful_requests s) / inject_Z (total_requests s))%Q as r eqn:Er.
    change (inject_Z 100) with (100 # 1)%Q. change (inject_Z 0) with 0%Q.
    split; [lra|]. split; [lra|]. intros _. split; split; intro H.
    + assert (E : r == 1) by (clear - H; lra). rewrite E in M.
      assert (E2 : inject_Z (successful_requests s) == inject_Z (total_requests s)) by lra.
      apply (proj1 (inject_Z_injective _ _)) in E2. lia.
    + assert (E2 : successful_requests s = total_requests s) by lia.
      subst r. rewrite E2. field_simplify_eq; [reflexivity|].
      intro Z. change 0%Q with (inject_Z 0) in Z. apply (proj1 (inject_Z_injective _ _)) in Z. lia.
    + assert (E : r == 0) by (clear - H; lra). rewrite E in M.
      assert (E2 : inject_Z (successful_requests s) == inject_Z 0)
        by (change (inject_Z 0) with 0%Q; lra).
      apply (proj1 (inject_Z_injective _ _)) in E2. exact E2.
    + subst r. rewrite H. change (inject_Z 0) with 0%Q. field.
      intro Z. change 0%Q with (inject_Z 0) in Z. apply (proj1 (inject_Z_injective _ _)) in Z. lia.
  - apply Z.ltb_ge in T. split; [apply Qcle_refl|]. split; [now apply Qc_of_Z_le|].
    intro P. lia.
Qed.

Lemma success_rate_is_a_percentage_witness :
  (s_success_rate (get_summary (add_failure "HTTP 500: oops" (Q2Qc 0)
                                  (add_success (Q2Qc (1 # 10)) RequestStats_init)))
   <= Qc_of_Z 100)%Qc.
Proof.
  apply (success_rate_is_a_percentage
           (add_failure "HTTP 500: oops" (Q2Qc 0)
              (add_success (Q2Qc (1 # 10)) RequestStats_init))).
  apply reach_failure, reach_success, reach_init.
Defined.

Lemma all_successes_fields (l : list ingestion) :
  Forall (fun o => is_success o = true) l ->
  count_of is_success l = Z.of_nat (List.length l) /\
  count_of (fun o => negb (is_success o)) l = 0 /\
  flat_map errors_of l = [].
Proof.
  unfold count_of. induction 1 as [|o l H _ IH].
  - repeat split.
  - destruct IH as (A & B & C). destruct o; [|discriminate]. simpl in *.
    repeat split; try assumption. lia.
Qed.

Lemma all_failures_fields (l : list ingestion) :
  Forall (fun o => is_success o = false) l ->
  count_of is_success l = 0 /\
  count_of (fun o => negb (is_success o)) l = Z.of_nat (List.length l) /\
  List.length (flat_map errors_of l) = List.length l.
Proof.
  unfold count_of. induction 1 as [|o l H _ IH].
  - repeat split.
  - destruct IH as (A & B & C). destruct o; [discriminate|]. simpl in *.
    repeat split; try assumption; lia.
Qed.

(** X4: when every request of a batch succeeded, the summary shows a
    success rate of 100, no failure and no error message. *)
Theorem all_succeeded_summary (l : list ingestion) :
  l <> [] ->
  Forall (fun o => is_success o = true) l ->
  s_success_rate (summary_of l) = Qc_of_Z 100 /\
  s_total_requests (summary_of l) = Z.of_nat (List.length l) /\
  s_successful_requests (summary_of l) = Z.of_nat (List.length l) /\
  s_failed_requests (summary_of l) = 0 /\
  s_errors (summary_of l) = [].
Proof.
  intros N A.
  destruct (ingest_all_fields l RequestStats_init) as (T & S & F & _ & E).
  destruct (all_successes_fields l A) as (CS & CF & CE).
  cbn [RequestStats_init total_requests successful_requests failed_requests errors app] in *.
  rewrite Z.add_0_l in T, S, F.
  unfold summary_of, get_summary. cbn [s_success_rate s_total_requests
    s_successful_requests s_failed_requests s_errors].
  rewrite E, CE. unfold success_rate. rewrite T, S, F, CS, CF.
  assert (P : 0 < Z.of_nat (List.length l)) by (destruct l; [congruence|cbn; lia]).
  repeat split.
  apply Z.ltb_lt in P. rewrite P. apply Z.ltb_lt in P.
  apply Qc_eq_this. rewrite this_rate, this_Qc_of_Z.
  field. intro Z. change 0%Q with (inject_Z 0) in Z.
  apply (proj1 (inject_Z_injective _ _)) in Z. lia.
Qed.

Lemma all_succeeded_summary_witness :
  s_success_rate (summary_of [AddSuccess (Q2Qc (1 # 10)); AddSuccess (Q2Qc (1 # 5))])
  = Qc_of_Z 100.
Proof.
  apply (all_succeeded_summary [AddSuccess (Q2Qc (1 # 10)); AddSuccess (Q2Qc (1 # 5))]).
  - discriminate.
  - repeat constructor.
Defined.

(** X5: when every request of a batch failed, the summary shows a success
    rate of 0, no success, and the first ten of the error messages, one
    having been stored per request. *)
Theorem all_failed_summary (l : list ingestion) :
  Forall (fun o => is_success o = false) l ->
  s_success_rate (summary_of l) = Qc_of_Z 0 /\
  s_successful_requests (summary_of l) = 0 /\
  s_failed_requests (summary_of l) = Z.of_nat (List.length l) /\
  List.length (s_errors (summary_of l)) = Nat.min 10 (List.length l).
Proof.
  intro A.
  destruct (ingest_all_fields l RequestStats_init) as (T & S & F & _ & E).
  destruct (all_failures_fields l A) as (CS & CF & CE).
  cbn [RequestStats_init total_requests successful_requests failed_requests errors app] in *.
  rewrite Z.add_0_l in T, S, F.
  unfold summary_of, get_summary. cbn [s_success_rate s_total_requests
    s_successful_requests s_failed_requests s_errors].
  rewrite E, length_firstn, CE. unfold success_rate. rewrite T, S, F, CS, CF.
  repeat split.
  destruct (0 <? Z.of_nat (List.length l)) eqn:P; [|reflexivity].
  apply Z.ltb_lt in P.
  apply Qc_eq_this. rewrite this_rate, this_Qc_of_Z.
  change (inject_Z 0) with 0%Q. field. intro Z. change 0%Q with (inject_Z 0) in Z.
  apply (proj1 (inject_Z_injective _ _)) in Z. lia.
Qed.

Lemma all_failed_summary_witness :
  List.length (s_errors (summary_of eleven_failures)) = Nat.min 10 (List.length eleven_failures).
Proof.
  apply (all_failed_summary eleven_failures).
  repeat constructor.
Defined.

(** X6: a failure whose elapsed time is zero or negative is counted and its
    message stored, but it adds no latency: the three latency figures of
    the summary stay as they were. *)
Theorem failure_without_elapsed_time (s : RequestStats) (e : string) (rt : Qc) :
  (rt <= Qc_of_Z 0)%Qc ->
  let s' := add_failure e rt s in
  total_requests s' = total_requests s + 1 /\
  failed_requests s' = failed_requests s + 1 /\
  errors s' = errors s ++ [e] /\
  response_times s' = response_times s /\
  s_avg_response_time_ms (get_summary s') = s_avg_response_time_ms (get_summary s) /\
  s_min_response_time_ms (get_summary s') = s_min_response_time_ms (get_summary s) /\
  s_max_response_time_ms (get_summary s') = s_max_response_time_ms (get_summary s).
Proof.
  intro H. apply Qc_ltb_ge in H. cbv zeta.
  assert (R : response_times (add_failure e rt s) = response_times s)
    by (unfold add_failure; cbn [response_times]; now rewrite H).
  unfold get_summary, avg_response_time, min_response_time, max_response_time.
  cbn [s_avg_response_time_ms s_min_response_time_ms s_max_response_time_ms].
  rewrite R. repeat split.
Qed.

Lemma failure_without_elapsed_time_witness :
  response_times (add_failure "ClientError: refused" (Q2Qc 0)
                    (add_success (Q2Qc (1 # 10)) RequestStats_init))
  = response_times (add_success (Q2Qc (1 # 10)) RequestStats_init).
Proof.
  apply (failure_without_elapsed_time
           (add_success (Q2Qc (1 # 10)) RequestStats_init)
           "ClientError: refused" (Q2Qc 0)).
  apply Qcle_refl.
Defined.

(** * Further properties of [make_request] *)

Lemma make_request_empty_range env burl lo hi w :
  hi < lo -> snd (make_request env burl lo hi w) = w.
Proof.
  intro H. apply Z.leb_gt in H.
  unfold make_request, random_randint, bind. now rewrite H.
Qed.

(** X7: with [min_id > max_id] the call fails in [random.randint], ahead of
    the [try]: the [ValueError] leaves the coroutine, no request is sent,
    nothing is counted and nothing is printed. *)
Theorem empty_range_sends_nothing env burl lo hi w :
  hi < lo ->
  exists e,
    make_request env burl lo hi w = (Raise e, w) /\
    exn_cls e = ValueError.
Proof.
  intro H. apply Z.leb_gt in H.
  unfold make_request, random_randint, bind. rewrite H.
  eexists. split; reflexivity.
Qed.

Lemma empty_range_sends_nothing_witness :
  exists e,
    make_request slow_body "http://localhost:8080" 10 1 fresh_world
    = (Raise e, fresh_world) /\ exn_cls e = ValueError.
Proof.
  apply (empty_range_sends_nothing slow_body "http://localhost:8080" 10 1 fresh_world).
  lia.
Defined.

Lemma make_request_result env burl lo hi w :
  lo <= hi ->
  (interrupted env = false ->
   fst (make_request env burl lo hi w) = Ret tt /\
   List.length (stdout (snd (make_request env burl lo hi w)))
   = S (List.length (stdout w))) /\
  (interrupted env = true ->
   (exists e, fst (make_request env burl lo hi w) = Raise e /\ is_Exception e = false) /\
   stdout (snd (make_request env burl lo hi w)) = stdout w /\
   stats (snd (make_request env burl lo hi w)) = stats w).
Proof.
  intro H. apply Z.leb_le in H. unfold interrupted.
  run_request. rewrite H. world_simpl.
  destruct (get_outcome env) as [status|e].
  - destruct (text_outcome env) as [content|e].
    + split; [|discriminate]. intros _.
      destruct (status =? 200); world_simpl; rewrite length_app; cbn [List.length];
        split; [reflexivity|lia|reflexivity|lia].
    + world_simpl. destruct (is_ClientError e) eqn:C.
      * assert (X : is_Exception e = true)
          by (unfold is_ClientError, is_Exception in *; destruct (exn_cls e);
              congruence).
        rewrite X. split; [|discriminate]. intros _. world_simpl.
        rewrite length_app. cbn [List.length]. split; [reflexivity|lia].
      * destruct (is_Exception e) eqn:X.
        -- split; [|discriminate]. intros _. world_simpl.
           rewrite length_app. cbn [List.length]. split; [reflexivity|lia].
        -- split; [discriminate|]. intros _. world_simpl.
           split; [exists e; now split|now split].
  - world_simpl. destruct (is_ClientError e) eqn:C.
    + assert (X : is_Exception e = true)
        by (unfold is_ClientError, is_Exception in *; destruct (exn_cls e);
            congruence).
      rewrite X. split; [|discriminate]. intros _. world_simpl.
      rewrite length_app. cbn [List.length]. split; [reflexivity|lia].
    + destruct (is_Exception e) eqn:X.
      * split; [|discriminate]. intros _. world_simpl.
        rewrite length_app. cbn [List.length]. split; [reflexivity|lia].
      * split; [discriminate|]. intros _. world_simpl.
        split; [exists e; now split|now split].
Qed.

(** X9: a cancellation raised while the request or the body is awaited is
    not caught: it leaves [make_request], and the attempt is neither
    counted nor reported, although its URL was requested. *)
Theorem cancellation_is_not_counted env burl lo hi w :
  lo <= hi ->
  interrupted env = true ->
  let w' := snd (make_request env burl lo hi w) in
  (exists e, fst (make_request env burl lo hi w) = Raise e /\ is_Exception e = false) /\
  stats w' = stats w /\
  stdout w' = stdout w /\
  requested w' = requested w ++ [(burl ++ "/user?id=" ++ str_of_int (rand_id env))%string].
Proof.
  intros H I. cbv zeta.
  destruct (make_request_result env burl lo hi w H) as [_ X].
  destruct (X I) as (E & O & S).
  rewrite make_request_requested by assumption.
  repeat split; assumption.
Qed.

Lemma cancellation_is_not_counted_witness :
  stats (snd (make_request cancelled "http://localhost:8080" 1 10000 fresh_world))
  = stats fresh_world.
Proof.
  apply (cancellation_is_not_counted cancelled "http://localhost:8080" 1 10000
           fresh_world).
  - lia.
  - reflexivity.
Defined.

Lemma str_of_int_parse (n : Z) :
  option_map Z.of_int (NilZero.int_of_string (str_of_int n)) = Some n.
Proof.
  unfold str_of_int. rewrite NilZero.isi.
  - cbn [option_map]. now rewrite DecimalZ.of_to.
  - destruct n; cbn; intro H; try discriminate.
    injection H as H. exact (Unsigned.to_uint_nonnil _ H).
  - destruct n; cbn; intro H; try discriminate.
    injection H as H. exact (Unsigned.to_uint_nonnil _ H).
Qed.

Lemma str_of_int_inj (a b : Z) : str_of_int a = str_of_int b -> a = b.
Proof.
  intro H. pose proof (str_of_int_parse a) as A. rewrite H, str_of_int_parse in A.
  now injection A.
Qed.

Lemma string_app_inv_head (p x y : string) : (p ++ x = p ++ y)%string -> x = y.
Proof.
  induction p as [|c p IH]; simpl; intro H; [exact H|].
  injection H as H. now apply IH.
Qed.

(** X10: the URL requested is [base_url] followed by ["/user?id="] and the
    decimal writing of the identifier: reading that number back gives
    the identifier, and attempts with different identifiers request
    different URLs. *)
Theorem request_url_carries_the_id env burl lo hi w :
  lo <= hi ->
  (exists digits,
     requested (snd (make_request env burl lo hi w))
     = requested w ++ [(burl ++ "/user?id=" ++ digits)%string] /\
     option_map Z.of_int (NilZero.int_of_string digits) = Some (rand_id env)) /\
  (forall env' w',
     last (requested (snd (make_request env' burl lo hi w'))) EmptyString
     = last (requested (snd (make_request env burl lo hi w))) EmptyString ->
     rand_id env' = rand_id env).
Proof.
  intro H. split.
  - exists (str_of_int (rand_id env)).
    rewrite make_request_requested by assumption.
    split; [reflexivity|apply str_of_int_parse].
  - intros env' w'. rewrite !make_request_requested, !last_last by assumption.
    intro E. apply string_app_inv_head, string_app_inv_head in E.
    now apply str_of_int_inj.
Qed.

Lemma request_url_carries_the_id_witness :
  exists digits,
    requested (snd (make_request slow_body "http://localhost:8080" 1 10000 fresh_world))
    = requested fresh_world ++ [("http://localhost:8080" ++ "/user?id=" ++ digits)%string] /\
    option_map Z.of_int (NilZero.int_of_string digits) = Some (rand_id slow_body).
Proof.
  apply (request_url_carries_the_id slow_body "http://localhost:8080" 1 10000 fresh_world).
  lia.
Defined.

(** * Further properties of the batch *)

Lemma outcome_of_interrupted env : interrupted env = true -> outcome_of env = None.
Proof.
  unfold interrupted, outcome_of.
  destruct (get_outcome env) as [status|e].
  - destruct (text_outcome env) as [content|e]; [discriminate|].
    intro H. apply negb_true_iff in H.
    assert (C : is_ClientError e = false)
      by (unfold is_ClientError, is_Exception in *; destruct (exn_cls e); congruence).
    now rewrite C, H.
  - intro H. apply negb_true_iff in H.
    assert (C : is_ClientError e = false)
      by (unfold is_ClientError, is_Exception in *; destruct (exn_cls e); congruence).
    now rewrite C, H.
Qed.

Lemma the_outcome_length env :
  List.length (the_outcome env) = if counted env then 1%nat else 0%nat.
Proof.
  unfold the_outcome, counted. destruct (interrupted env) eqn:I.
  - now rewrite (outcome_of_interrupted env I).
  - destruct (outcome_of_uninterrupted env I) as [o ->]. reflexivity.
Qed.

Lemma the_outcomes_length (envs : list attempt) :
  List.length (flat_map the_outcome envs) = List.length (filter counted envs).
Proof.
  induction envs as [|env envs IH]; [reflexivity|].
  cbn [flat_map filter]. rewrite length_app, the_outcome_length.
  destruct (counted env); cbn [List.length]; lia.
Qed.



Lemma count_tasks_none (p : task -> bool) (l : list task) :
  (forall t, In t l -> p t = false) -> count_tasks p l = 0.
Proof.
  unfold count_tasks. induction l as [|t l IH]; intro H; [reflexivity|].
  simpl. rewrite (H t) by now left. apply IH. intros u Hu. apply H. now right.
Qed.

Lemma finished_no_holder (l : list task) :
  forallb is_done l = true -> count_tasks holds_slot l = 0.
Proof.
  intro F. apply count_tasks_none. intros t I.
  rewrite forallb_forall in F. specialize (F t I). now destruct t.
Qed.

(** X12: when a batch has finished, every slot of the semaphore is free
    again, whether the requests returned, failed or were cancelled. *)
Theorem finished_batch_frees_every_slot (cfg : config) (tm : timing) (evs : list event)
  (b : batch) :
  0 <= concurrency cfg ->
  run_concurrent_requests cfg tm evs = Some b ->
  sem b = concurrency cfg.
Proof.
  intros K R. unfold run_concurrent_requests in R.
  destruct (run_from cfg evs (batch_init cfg)) as [b1|] eqn:E; [|discriminate].
  destruct (finished b1) eqn:F; [|discriminate]. injection R as <-. cbn [sem].
  destruct (slots_accounted_run cfg evs _ _ E (slots_accounted_init cfg K)) as [_ A].
  unfold finished in F. rewrite (finished_no_holder _ F) in A. lia.
Qed.

Lemma finished_batch_frees_every_slot_witness :
  match run_concurrent_requests demo_config demo_timing demo_schedule with
  | Some b => sem b = concurrency demo_config
  | None => False
  end.
Proof.
  destruct (run_concurrent_requests demo_config demo_timing demo_schedule)
    as [b|] eqn:R.
  - apply (finished_batch_frees_every_slot demo_config demo_timing demo_schedule b).
    + cbn. lia.
    + exact R.
  - vm_compute in R. discriminate R.
Defined.

Lemma run_from_app (cfg : config) (evs1 evs2 : list event) (b : batch) :
  run_from cfg (evs1 ++ evs2) b
  = match run_from cfg evs1 b with
    | Some b1 => run_from cfg evs2 b1
    | None => None
    end.
Proof.
  revert b. induction evs1 as [|ev evs1 IH]; intro b; [reflexivity|].
  simpl. destruct (step cfg ev b); [apply IH|reflexivity].
Qed.

Lemma find_task_Some (p : task -> bool) (l : list task) (i : nat) :
  find_task p l = Some i -> exists t, nth_error l i = Some t /\ p t = true.
Proof.
  revert i. induction l as [|t l IH]; intros i H; [discriminate|].
  simpl in H. destruct (p t) eqn:P.
  - injection H as <-. exists t. now split.
  - destruct (find_task p l) as [j|]; [|discriminate]. injection H as <-.
    destruct (IH j eq_refl) as (u & N & Q). exists u. now split.
Qed.

Lemma find_task_None (p : task -> bool) (l : list task) :
  find_task p l = None -> forall t, In t l -> p t = false.
Proof.
  induction l as [|u l IH]; intros H t I; [destruct I|].
  simpl in H. destruct (p u) eqn:P; [discriminate|].
  destruct (find_task p l); [discriminate|].
  destruct I as [<-|I]; [exact P|now apply IH].
Qed.

Lemma work_left_set_nth (l : list task) (i : nat) (t t' : task) :
  nth_error l i = Some t ->
  (work_left (set_nth i t' l) + remaining t = work_left l + remaining t')%nat.
Proof.
  unfold work_left. revert i. induction l as [|u l IH]; intros [|i] H; try discriminate.
  - injection H as ->. simpl. lia.
  - simpl in H. specialize (IH i H). simpl. lia.
Qed.

Lemma work_left_finished (l : list task) :
  work_left l = O <-> forallb is_done l = true.
Proof.
  unfold work_left. induction l as [|t l IH]; [now split|].
  simpl. rewrite andb_true_iff, <- IH. destruct t; simpl; split; intro H;
    try lia; try (split; [reflexivity|lia]); destruct H; (discriminate || lia).
Qed.

Lemma work_left_bound (l : list task) : (work_left l <= 3 * List.length l)%nat.
Proof.
  unfold work_left. induction l as [|t l IH]; [simpl; lia|].
  destruct t; simpl in *; lia.
Qed.

(** From a state in which the semaphore accounts for its holders, an
    unfinished batch always has a coroutine that can move. *)
Lemma some_coroutine_can_move (cfg : config) (env : attempt) (b : batch) :
  0 < concurrency cfg ->
  slots_accounted cfg b ->
  finished b = false ->
  exists ev b',
    next_event env b = Some ev /\ step cfg ev b = Some b' /\
    S (work_left (tasks b')) = work_left (tasks b).
Proof.
  intros K [P A] F. unfold next_event.
  destruct (find_task is_inflight (tasks b)) as [i|] eqn:FI.
  { destruct (find_task_Some _ _ _ FI) as ([| | |] & N & Q); try discriminate.
    eexists. eexists. split; [reflexivity|].
    rewrite step_complete by assumption. cbv zeta. split; [reflexivity|].
    cbn [tasks]. pose proof (work_left_set_nth _ _ _ Returned N). simpl in *. lia. }
  destruct (find_task is_returned (tasks b)) as [i|] eqn:FR.
  { destruct (find_task_Some _ _ _ FR) as ([| | |] & N & Q); try discriminate.
    eexists. eexists. split; [reflexivity|].
    rewrite step_release by assumption. split; [reflexivity|].
    cbn [tasks]. pose proof (work_left_set_nth _ _ _ Done N). simpl in *. lia. }
  destruct (find_task is_waiting (tasks b)) as [i|] eqn:FW.
  { destruct (find_task_Some _ _ _ FW) as ([| | |] & N & Q); try discriminate.
    assert (H0 : count_tasks holds_slot (tasks b) = 0).
    { apply count_tasks_none. intros t I.
      pose proof (find_task_None _ _ FI t I). pose proof (find_task_None _ _ FR t I).
      now destruct t. }
    eexists. eexists. split; [reflexivity|].
    rewrite step_acquire by (assumption || lia). split; [reflexivity|].
    cbn [tasks]. pose proof (work_left_set_nth _ _ _ InFlight N). simpl in *. lia. }
  exfalso. unfold finished in F.
  assert (D : forallb is_done (tasks b) = true).
  { apply forallb_forall. intros t I.
    pose proof (find_task_None _ _ FI t I). pose proof (find_task_None _ _ FR t I).
    pose proof (find_task_None _ _ FW t I). now destruct t. }
  congruence.
Qed.

Lemma drain_finishes (cfg : config) (env : attempt) :
  0 < concurrency cfg ->
  forall (n : nat) (b : batch),
    work_left (tasks b) = n ->
    slots_accounted cfg b ->
    exists b',
      run_from cfg (drain cfg env n b) b = Some b' /\ finished b' = true /\
      List.length (drain cfg env n b) = n.
Proof.
  intros K. induction n as [|n IH]; intros b W A.
  - exists b. repeat split. unfold finished. now apply work_left_finished.
  - assert (F : finished b = false).
    { destruct (finished b) eqn:F; [|reflexivity]. unfold finished in F.
      apply work_left_finished in F. lia. }
    destruct (some_coroutine_can_move cfg env b K A F) as (ev & b1 & E & S1 & W1).
    cbn [drain]. rewrite E, S1. cbn [run_from]. rewrite S1.
    destruct (IH b1) as (b' & R & Fi & L); [lia|eapply slots_accounted_step; eauto|].
    exists b'. cbn [List.length]. repeat split; (assumption || lia).
Qed.

(** X14: a batch with [concurrency > 0] cannot get stuck: from every state
    the event loop can reach, it can go on until every coroutine has
    finished, in at most three resumptions per coroutine, whatever the
    network answers to the requests still pending. *)
Theorem batch_never_deadlocks (cfg : config) (evs : list event) (b : batch)
  (env : attempt) :
  0 < concurrency cfg ->
  run_from cfg evs (batch_init cfg) = Some b ->
  exists evs' b',
    run_from cfg (evs ++ evs') (batch_init cfg) = Some b' /\
    finished b' = true /\
    (List.length evs' <= 3 * Z.to_nat (num_requests cfg))%nat /\
    Forall (fun a => a = env) (completions evs').
Proof.
  intros K R.
  assert (A : slots_accounted cfg b).
  { apply (slots_accounted_run cfg evs _ _ R), slots_accounted_init. lia. }
  destruct (drain_finishes cfg env K _ b eq_refl A) as (b' & D & F & L).
  exists (drain cfg env (work_left (tasks b)) b), b'.
  rewrite run_from_app, R. split; [exact D|]. split; [exact F|]. split.
  - rewrite L.
    assert (Len : List.length (tasks b) = Z.to_nat (num_requests cfg)).
    { clear - R. assert (G : forall evs b0 b1, run_from cfg evs b0 = Some b1 ->
                          List.length (tasks b1) = List.length (tasks b0)).
      { induction evs0 as [|ev evs0 IH]; intros b0 b1 H.
        - now injection H as <-.
        - simpl in H. destruct (step cfg ev b0) as [b2|] eqn:S; [|discriminate].
          rewrite (IH _ _ H).
          destruct (step_inv _ _ _ _ S)
            as [(i & -> & N & L & ->)|[(i & e & -> & N & ->)|(i & -> & N & ->)]];
            cbn [tasks]; apply set_nth_length. }
      rewrite (G _ _ _ R). cbn [batch_init tasks]. apply repeat_length. }
    rewrite <- Len. apply work_left_bound.
  - clear. generalize (work_left (tasks b)). intro n. revert b.
    induction n as [|n IH]; intro b; [constructor|].
    cbn [drain]. unfold next_event.
    destruct (find_task is_inflight (tasks b)).
    { destruct (step cfg (Complete n0 env) b); [|constructor].
      cbn [completions]. constructor; [reflexivity|apply IH]. }
    destruct (find_task is_returned (tasks b)).
    { destruct (step cfg (Release n0) b); [|constructor]. cbn [completions]. apply IH. }
    destruct (find_task is_waiting (tasks b)); [|constructor].
    destruct (step cfg (Acquire n0) b); [|constructor]. cbn [completions]. apply IH.
Qed.

Lemma batch_never_deadlocks_witness :
  exists evs' b',
    run_from demo_config ([Acquire 0] ++ evs') (batch_init demo_config) = Some b' /\
    finished b' = true.
Proof.
  destruct (batch_never_deadlocks demo_config [Acquire 0%nat]
              (mkBatch 0 [InFlight; Waiting] RequestStats_init
                 (b_stdout (batch_init demo_config)) [])
              slow_body) as (evs' & b' & R & F & _).
  - reflexivity.
  - reflexivity.
  - exists evs', b'. now split.
Defined.


(** * Properties of [print_statistics] *)





(** * Error messages, schedules and ranges *)




Lemma run_empty_range (cfg : config) (evs : list event) (b b' : batch) :
  max_id cfg < min_id cfg ->
  run_from cfg evs b = Some b' ->
  b_stats b' = b_stats b /\ b_requested b' = b_requested b /\ b_stdout b' = b_stdout b.
Proof.
  intro M. revert b. induction evs as [|ev evs IH]; intros b R.
  - injection R as <-. repeat split.
  - simpl in R. destruct (step cfg ev b) as [b1|] eqn:S; [|discriminate].
    destruct (IH b1 R) as (St & Rq & So). rewrite St, Rq, So.
    destruct (step_inv _ _ _ _ S)
      as [(i & -> & N & L & ->)|[(i & env & -> & N & ->)|(i & -> & N & ->)]];
      cbn [b_stats b_requested b_stdout]; try (repeat split; reflexivity).
    rewrite make_request_empty_range by assumption. repeat split.
Qed.

(** X16: called with [min_id > max_id], [run_concurrent_requests] still runs
    to its end, but every coroutine fails before its request: no URL is
    requested, no progress line is printed and the aggregator returned is
    the empty one. [asyncio.gather] keeps the errors to itself. *)
Theorem empty_range_batch_does_nothing
  (cfg : config) (tm : timing) (evs : list event) (b : batch) :
  max_id cfg < min_id cfg ->
  run_concurrent_requests cfg tm evs = Some b ->
  b_stats b = RequestStats_init /\
  b_requested b = [] /\
  List.length (b_stdout b) = 6%nat /\
  s_total_requests (get_summary (b_stats b)) = 0.
Proof.
  intros M R. unfold run_concurrent_requests in R.
  destruct (run_from cfg evs (batch_init cfg)) as [b1|] eqn:E; [|discriminate].
  destruct (finished b1); [|discriminate]. injection R as <-.
  cbn [b_stats b_requested b_stdout].
  destruct (run_empty_range cfg evs _ _ M E) as (St & Rq & So).
  rewrite St, Rq, So. cbn. repeat split.
Qed.

Lemma empty_range_batch_does_nothing_witness :
  match run_concurrent_requests backwards_config demo_timing demo_schedule with
  | Some b => b_stats b = RequestStats_init /\ b_requested b = []
  | None => False
  end.
Proof.
  destruct (run_concurrent_requests backwards_config demo_timing demo_schedule)
    as [b|] eqn:R.
  - destruct (empty_range_batch_does_nothing backwards_config demo_timing
                demo_schedule b) as (S & Q & _).
    + cbn. lia.
    + exact R.
    + now split.
  - vm_compute in R. discriminate R.
Defined.

(** * The rounding [binary64] *)

Lemma round_half_even_Z (k : Z) : round_half_even (inject_Z k) = k.
Proof.
  apply (nearest_even_unique _ _ (inject_Z k)); [apply round_half_even_nearest|].
  split; [lra|]. split; [lra|]. intros [H|H]; lra.
Qed.

Lemma pow2_Qpower (e : Z) : (Py.pow2 e == (2 # 1) ^ e)%Q.
Proof.
  unfold Py.pow2. destruct (0 <=? e) eqn:S.
  - apply Z.leb_le in S. rewrite (Zpower_Qpower 2 e S). reflexivity.
  - apply Z.leb_gt in S.
    rewrite (Zpower_Qpower 2 (- e)) by lia. change (inject_Z 2) with (2 # 1)%Q.
    rewrite Qpower_opp. unfold Qdiv. now rewrite Qmult_1_l, Qinv_involutive.
Qed.

Lemma pow2_pos (e : Z) : (0 < Py.pow2 e)%Q.
Proof. rewrite pow2_Qpower. apply Qpower_0_lt. reflexivity. Qed.

Lemma pow2_add (a b : Z) : (Py.pow2 (a + b) == Py.pow2 a * Py.pow2 b)%Q.
Proof. rewrite !pow2_Qpower. apply Qpower_plus. discriminate. Qed.

Lemma pow2_le (a b : Z) : a <= b -> (Py.pow2 a <= Py.pow2 b)%Q.
Proof.
  intro H. rewrite !pow2_Qpower. apply Qpower_le_compat_l; [exact H|discriminate].
Qed.

Lemma pow2_lt_inv (a b : Z) : (Py.pow2 a < Py.pow2 b)%Q -> a < b.
Proof.
  rewrite !pow2_Qpower. intro H.
  apply (Qpower_lt_compat_l_inv (2 # 1)); [exact H|reflexivity].
Qed.

Lemma pow2_Z (e : Z) : 0 <= e -> (Py.pow2 e == inject_Z (2 ^ e))%Q.
Proof. intro H. unfold Py.pow2. apply Z.leb_le in H. now rewrite H. Qed.

Lemma pow2_cancel (a : Z) : (Py.pow2 a * Py.pow2 (- a) == 1)%Q.
Proof. rewrite <- pow2_add, Z.add_opp_diag_r. reflexivity. Qed.

(** A quotient of two positive integers lies between the quotients of
    the powers of two that bracket them. *)
Lemma exponent_bracket (n : Z) (d : positive) :
  0 < n ->
  (Py.pow2 (Z.log2 n - Z.log2 (Zpos d) - 1) <= n # d)%Q /\
  (n # d < Py.pow2 (Z.log2 n - Z.log2 (Zpos d) + 1))%Q.
Proof.
  intro N.
  destruct (Z.log2_spec n N) as [Ln Un].
  destruct (Z.log2_spec (Zpos d) (Pos2Z.is_pos d)) as [Ld Ud].
  pose proof (Z.log2_nonneg n) as Pn.
  pose proof (Z.log2_nonneg (Zpos d)) as Pd.
  set (ln := Z.log2 n) in *. set (ld := Z.log2 (Zpos d)) in *.
  replace (Z.succ ln) with (ln + 1) in Un by lia.
  replace (Z.succ ld) with (ld + 1) in Ud by lia.
  assert (Cn : (Py.pow2 ln * Py.pow2 (- ln) == 1)%Q) by apply pow2_cancel.
  assert (Cd : (Py.pow2 ld * Py.pow2 (- ld) == 1)%Q) by apply pow2_cancel.
  pose proof (pow2_pos (- ld)) as Pid. pose proof (pow2_pos (- ln)) as Pin.
  pose proof (pow2_pos ln) as Ppn. pose proof (pow2_pos ld) as Ppd.
  assert (Dq : (0 < inject_Z (Zpos d))%Q) by reflexivity.
  (* the integer facts, in Q *)
  assert (Ln' : (Py.pow2 ln <= inject_Z n)%Q) by (rewrite pow2_Z by lia; now rewrite <- Zle_Qle).
  assert (Un' : (inject_Z n < Py.pow2 (ln + 1))%Q)
    by (rewrite pow2_Z by lia; now rewrite <- Zlt_Qlt).
  assert (Ld' : (Py.pow2 ld <= inject_Z (Zpos d))%Q)
    by (rewrite pow2_Z by lia; now rewrite <- Zle_Qle).
  assert (Ud' : (inject_Z (Zpos d) < Py.pow2 (ld + 1))%Q)
    by (rewrite pow2_Z by lia; now rewrite <- Zlt_Qlt).
  rewrite (pow2_add ln 1) in Un'. rewrite (pow2_add ld 1) in Ud'.
  change (Py.pow2 1) with (2 # 1)%Q in *.
  rewrite Qmake_Qdiv.
  split.
  - apply Qle_shift_div_l; [exact Dq|].
    replace (ln - ld - 1) with (ln + (- ld + - 1)) by lia.
    rewrite pow2_add, (pow2_add (- ld) (- 1)).
    change (Py.pow2 (- 1)) with (1 # 2)%Q.
    set (A := Py.pow2 ln) in *. set (B := Py.pow2 ld) in *.
    set (iB := Py.pow2 (- ld)) in *. set (D := inject_Z (Zpos d)) in *.
    set (Nq := inject_Z n) in *.
    assert (H1 : (iB * D < 2)%Q).
    { assert (H : (iB * D < iB * (B * (2 # 1)))%Q)
        by (apply Qmult_lt_l; assumption).
      assert (H' : (iB * (B * (2 # 1)) == 2)%Q)
        by (rewrite Qmult_assoc, (Qmult_comm iB B), Cd; reflexivity).
      rewrite H' in H. exact H. }
    assert (H2 : (A * (iB * (1 # 2)) * D == A * ((iB * D) * (1 # 2)))%Q) by ring.
    rewrite H2.
    assert (H3 : (A * ((iB * D) * (1 # 2)) <= A * 1)%Q).
    { apply Qmult_le_l; [exact Ppn|]. lra. }
    rewrite Qmult_1_r in H3. lra.
  - apply Qlt_shift_div_r; [exact Dq|].
    replace (ln - ld + 1) with ((ln + 1) + - ld) by lia.
    rewrite pow2_add, (pow2_add ln 1).
    change (Py.pow2 1) with (2 # 1)%Q.
    set (A := Py.pow2 ln) in *. set (B := Py.pow2 ld) in *.
    set (iB := Py.pow2 (- ld)) in *. set (D := inject_Z (Zpos d)) in *.
    set (Nq := inject_Z n) in *.
    assert (H1 : (1 <= iB * D)%Q).
    { assert (H : (iB * B <= iB * D)%Q) by (apply Qmult_le_l; assumption).
      rewrite (Qmult_comm iB B), Cd in H. exact H. }
    assert (H2 : (A * (2 # 1) * iB * D == (A * (2 # 1)) * (iB * D))%Q) by ring.
    rewrite H2.
    assert (H3 : ((A * (2 # 1)) * 1 <= (A * (2 # 1)) * (iB * D))%Q).
    { apply Qmult_le_l; [|exact H1]. lra. }
    rewrite Qmult_1_r in H3. lra.
Qed.

(** [exponent a] is the binary exponent of [a]. *)
Lemma exponent_spec (a : Q) :
  (0 < a)%Q ->
  (Py.pow2 (Py.exponent a) <= a)%Q /\ (a < Py.pow2 (Py.exponent a + 1))%Q.
Proof.
  intro P. destruct a as [n d].
  assert (N : 0 < n) by (unfold Qlt in P; simpl in P; lia).
  destruct (exponent_bracket n d N) as [L U].
  unfold Py.exponent. cbn [Qnum Qden].
  set (e0 := Z.log2 n - Z.log2 (Zpos d)) in *.
  destruct (Qle_bool (Py.pow2 e0) (n # d)) eqn:C.
  - apply Qle_bool_iff in C. now split.
  - split; [exact L|].
    replace (e0 - 1 + 1) with e0 by lia.
    apply Qnot_le_lt. intro H. apply Qle_bool_iff in H. congruence.
Qed.

(** The rounding of a positive rational to 53 significant bits. *)
Lemma binary64_Q_pos (q : Q) :
  (0 < q)%Q ->
  Py.binary64_Q q
  = (inject_Z (round_half_even (Qabs q * Py.pow2 (52 - Py.exponent (Qabs q))))
     * Py.pow2 (Py.exponent (Qabs q) - 52))%Q.
Proof.
  intro P. unfold Py.binary64_Q.
  assert (A : (Qabs q == q)%Q) by (apply Qabs_pos; lra).
  destruct (Qeq_bool (Qabs q) 0) eqn:Z.
  - apply Qeq_bool_iff in Z. lra.
  - assert (L : Qle_bool 0 q = true) by (apply Qle_bool_iff; lra).
    now rewrite L.
Qed.

Lemma binary64_Q_neg (q : Q) :
  (q < 0)%Q ->
  Py.binary64_Q q
  = (- (inject_Z (round_half_even (Qabs q * Py.pow2 (52 - Py.exponent (Qabs q))))
        * Py.pow2 (Py.exponent (Qabs q) - 52)))%Q.
Proof.
  intro P. unfold Py.binary64_Q.
  assert (A : (Qabs q == - q)%Q) by (apply Qabs_neg; lra).
  destruct (Qeq_bool (Qabs q) 0) eqn:Z.
  - apply Qeq_bool_iff in Z. lra.
  - destruct (Qle_bool 0 q) eqn:L; [|reflexivity].
    apply Qle_bool_iff in L. lra.
Qed.

Lemma binary64_Q_zero (q : Q) : (q == 0)%Q -> Py.binary64_Q q = 0%Q.
Proof.
  intro Z. unfold Py.binary64_Q.
  assert (A : Qeq_bool (Qabs q) 0 = true)
    by (apply Qeq_bool_iff; rewrite Z; reflexivity).
  now rewrite A.
Qed.

(** The significand of a positive rational lies between [2^52] and
    [2^53], so the rounded value lies between [2^e] and [2^(e+1)]. *)
Lemma rounded_magnitude (a : Q) :
  (0 < a)%Q ->
  let e := Py.exponent a in
  let r := (inject_Z (round_half_even (a * Py.pow2 (52 - e))) * Py.pow2 (e - 52))%Q in
  (Py.pow2 e <= r)%Q /\ (r <= Py.pow2 (e + 1))%Q.
Proof.
  intro P. cbv zeta. destruct (exponent_spec a P) as [L U].
  set (e := Py.exponent a) in *.
  pose proof (pow2_pos (52 - e)) as Ps. pose proof (pow2_pos (e - 52)) as Pr.
  assert (S52 : (Py.pow2 e * Py.pow2 (52 - e) == inject_Z (2 ^ 52))%Q)
    by (rewrite <- pow2_add; replace (e + (52 - e)) with 52 by lia; reflexivity).
  assert (S53 : (Py.pow2 (e + 1) * Py.pow2 (52 - e) == inject_Z (2 ^ 53))%Q)
    by (rewrite <- pow2_add; replace (e + 1 + (52 - e)) with 53 by lia; reflexivity).
  assert (B52 : (inject_Z (2 ^ 52) * Py.pow2 (e - 52) == Py.pow2 e)%Q).
  { change (inject_Z (2 ^ 52)) with (Py.pow2 52). rewrite <- pow2_add.
    replace (52 + (e - 52)) with e by lia. reflexivity. }
  assert (B53 : (inject_Z (2 ^ 53) * Py.pow2 (e - 52) == Py.pow2 (e + 1))%Q).
  { change (inject_Z (2 ^ 53)) with (Py.pow2 53). rewrite <- pow2_add.
    replace (53 + (e - 52)) with (e + 1) by lia. reflexivity. }
  assert (Lo : 2 ^ 52 <= round_half_even (a * Py.pow2 (52 - e))).
  { rewrite <- (round_half_even_Z (2 ^ 52)). apply round_half_even_mono.
    rewrite <- S52. apply Qmult_le_r; assumption. }
  assert (Hi : round_half_even (a * Py.pow2 (52 - e)) <= 2 ^ 53).
  { rewrite <- (round_half_even_Z (2 ^ 53)). apply round_half_even_mono.
    rewrite <- S53. apply Qmult_le_r; [assumption|]. lra. }
  rewrite Zle_Qle in Lo, Hi.
  split.
  - rewrite <- B52. apply Qmult_le_r; assumption.
  - rewrite <- B53. apply Qmult_le_r; assumption.
Qed.

(** Rounding keeps the order of positive rationals. *)
Lemma binary64_Q_mono_pos (x y : Q) :
  (0 < x)%Q -> (x <= y)%Q ->
  (inject_Z (round_half_even (x * Py.pow2 (52 - Py.exponent x)))
   * Py.pow2 (Py.exponent x - 52)
   <= inject_Z (round_half_even (y * Py.pow2 (52 - Py.exponent y)))
      * Py.pow2 (Py.exponent y - 52))%Q.
Proof.
  intros Px Le.
  assert (Py : (0 < y)%Q) by lra.
  destruct (exponent_spec x Px) as [Lx Ux].
  destruct (exponent_spec y Py) as [Ly Uy].
  destruct (rounded_magnitude x Px) as [_ Rx].
  destruct (rounded_magnitude y Py) as [Ry _].
  set (ex := Py.exponent x) in *. set (ey := Py.exponent y) in *.
  assert (E : ex < ey + 1) by (apply pow2_lt_inv; lra).
  destruct (Z.eq_dec ex ey) as [Q|Q].
  - rewrite <- Q. apply Qmult_le_r; [apply pow2_pos|].
    rewrite <- Zle_Qle. apply round_half_even_mono.
    apply Qmult_le_r; [apply pow2_pos|exact Le].
  - assert (S : (Py.pow2 (ex + 1) <= Py.pow2 ey)%Q) by (apply pow2_le; lia).
    lra.
Qed.

Lemma binary64_Q_mono (x y : Q) :
  (x <= y)%Q -> (Py.binary64_Q x <= Py.binary64_Q y)%Q.
Proof.
  intro Le.
  assert (Nonneg : forall q, (0 < q)%Q -> (0 <= Py.binary64_Q q)%Q).
  { intros q P. rewrite (binary64_Q_pos q P).
    assert (A : (0 < Qabs q)%Q) by (rewrite Qabs_pos; lra).
    destruct (rounded_magnitude (Qabs q) A) as [L _].
    pose proof (pow2_pos (Py.exponent (Qabs q))). lra. }
  assert (Nonpos : forall q, (q < 0)%Q -> (Py.binary64_Q q <= 0)%Q).
  { intros q P. rewrite (binary64_Q_neg q P).
    assert (A : (0 < Qabs q)%Q) by (rewrite Qabs_neg; lra).
    destruct (rounded_magnitude (Qabs q) A) as [L _].
    pose proof (pow2_pos (Py.exponent (Qabs q))). lra. }
  destruct (Qlt_le_dec 0 x) as [Px|Nx].
  - (* 0 < x <= y *)
    assert (Py : (0 < y)%Q) by lra.
    rewrite (binary64_Q_pos x Px), (binary64_Q_pos y Py).
    assert (Ax : (Qabs x == x)%Q) by (apply Qabs_pos; lra).
    assert (Ay : (Qabs y == y)%Q) by (apply Qabs_pos; lra).
    apply binary64_Q_mono_pos.
    + rewrite Ax. exact Px.
    + rewrite Ax, Ay. exact Le.
  - destruct (Qlt_le_dec x 0) as [Nx'|Zx].
    + (* x < 0 *)
      destruct (Qlt_le_dec y 0) as [Ny|Py].
      * (* x <= y < 0 *)
        rewrite (binary64_Q_neg x Nx'), (binary64_Q_neg y Ny).
        assert (Ax : (Qabs x == - x)%Q) by (apply Qabs_neg; lra).
        assert (Ay : (Qabs y == - y)%Q) by (apply Qabs_neg; lra).
        apply Qopp_le_compat. apply binary64_Q_mono_pos.
        -- rewrite Ay. lra.
        -- rewrite Ax, Ay. lra.
      * (* x < 0 <= y *)
        apply Qle_trans with 0%Q; [now apply Nonpos|].
        destruct (Qlt_le_dec 0 y) as [Py'|Zy]; [now apply Nonneg|].
        rewrite (binary64_Q_zero y) by lra. apply Qle_refl.
    + (* x = 0 *)
      rewrite (binary64_Q_zero x) by lra.
      destruct (Qlt_le_dec 0 y) as [Py'|Zy]; [now apply Nonneg|].
      rewrite (binary64_Q_zero y) by lra. apply Qle_refl.
Qed.

(** Rounding to the nearest float keeps the order. *)
Lemma binary64_monotone : monotone Py.binary64.
Proof.
  intros x y H. unfold Py.binary64, Qcle, Q2Qc. cbn [this].
  rewrite !Qred_correct. apply binary64_Q_mono. exact H.
Qed.

(** The rounded value is within half a unit in the last place: for a
    rational of exponent [e] the error is at most [2^(e-53)]. *)
Lemma binary64_Q_nearest (q : Q) :
  (0 < q)%Q ->
  (Qabs (Py.binary64_Q q - q) <= Py.pow2 (Py.exponent (Qabs q) - 53))%Q.
Proof.
  intro P. rewrite (binary64_Q_pos q P).
  assert (A : (Qabs q == q)%Q) by (apply Qabs_pos; lra).
  set (e := Py.exponent (Qabs q)) in *.
  destruct (round_half_even_nearest (Qabs q * Py.pow2 (52 - e))%Q) as (L & U & _).
  set (m := inject_Z (round_half_even (Qabs q * Py.pow2 (52 - e)))) in *.
  pose proof (pow2_pos (e - 52)) as Pr.
  assert (C : (Py.pow2 (52 - e) * Py.pow2 (e - 52) == 1)%Q)
    by (rewrite <- pow2_add; replace (52 - e + (e - 52)) with 0 by lia; reflexivity).
  assert (H : (Py.pow2 (e - 53) == (1 # 2) * Py.pow2 (e - 52))%Q).
  { replace (e - 53) with (- 1 + (e - 52)) by lia. rewrite pow2_add. reflexivity. }
  rewrite H.
  assert (Q' : (q == (Qabs q * Py.pow2 (52 - e)) * Py.pow2 (e - 52))%Q).
  { rewrite <- Qmult_assoc, C, Qmult_1_r. symmetry. exact A. }
  set (s := (Qabs q * Py.pow2 (52 - e))%Q) in *.
  set (p := Py.pow2 (e - 52)) in *.
  assert (D : (m * p - q == (m - s) * p)%Q) by (rewrite Q' at 1; ring).
  rewrite D, Qabs_Qmult, (Qabs_pos p) by lra.
  apply Qmult_le_r; [exact Pr|].
  apply Qabs_Qle_condition. split; lra.
Qed.

(** ** Floats that need no rounding *)

Lemma round_half_even_comp (x y : Q) : (x == y)%Q -> round_half_even x = round_half_even y.
Proof.
  intro H. apply Z.le_antisymm; apply round_half_even_mono; rewrite H; apply Qle_refl.
Qed.

(** A positive integer below [2^53] times a power of two is a float:
    rounding returns it. *)
Lemma binary64_Q_fixes_pos (q : Q) (m k : Z) :
  0 < m < 2 ^ 53 ->
  (q == inject_Z m * Py.pow2 k)%Q ->
  (Py.binary64_Q q == q)%Q.
Proof.
  intros [M0 M1] E.
  pose proof (pow2_pos k) as Pk.
  assert (Mq : (inject_Z 0 < inject_Z m)%Q) by (rewrite <- Zlt_Qlt; exact M0).
  change (inject_Z 0) with 0%Q in Mq.
  assert (P : (0 < q)%Q).
  { rewrite E. apply Qmult_lt_0_compat; assumption. }
  rewrite (binary64_Q_pos q P).
  assert (A : (Qabs q == q)%Q) by (apply Qabs_pos; lra).
  assert (Pa : (0 < Qabs q)%Q) by lra.
  destruct (exponent_spec (Qabs q) Pa) as [L U].
  set (e := Py.exponent (Qabs q)) in *.
  (* q < 2^(53+k), hence e < 53 + k *)
  assert (B : (q < Py.pow2 (53 + k))%Q).
  { rewrite E, pow2_add. apply Qmult_lt_r; [exact Pk|].
    change (Py.pow2 53) with (inject_Z (2 ^ 53)). now rewrite <- Zlt_Qlt. }
  assert (J : e < 53 + k) by (apply pow2_lt_inv; lra).
  set (j := k + 52 - e).
  assert (S : (Qabs q * Py.pow2 (52 - e) == inject_Z (m * 2 ^ j))%Q).
  { rewrite A, E, <- Qmult_assoc, <- pow2_add.
    replace (k + (52 - e)) with j by (unfold j; lia).
    rewrite inject_Z_mult, (pow2_Z j) by (unfold j; lia). reflexivity. }
  rewrite (round_half_even_comp _ _ S), round_half_even_Z.
  rewrite inject_Z_mult, <- (pow2_Z j) by (unfold j; lia).
  rewrite <- Qmult_assoc, <- pow2_add.
  replace (j + (e - 52)) with k by (unfold j; lia).
  symmetry. exact E.
Qed.

Lemma binary64_Q_opp (q : Q) : (Py.binary64_Q (- q) == - Py.binary64_Q q)%Q.
Proof.
  destruct (Qlt_le_dec 0 q) as [P|N].
  - assert (N' : (- q < 0)%Q) by lra.
    rewrite (binary64_Q_pos q P), (binary64_Q_neg (- q) N').
    assert (A : Qabs (- q) = Qabs q) by (destruct q as [[|n|n] d]; reflexivity).
    rewrite A. reflexivity.
  - destruct (Qlt_le_dec q 0) as [N'|Z].
    + assert (P : (0 < - q)%Q) by lra.
      rewrite (binary64_Q_neg q N'), (binary64_Q_pos (- q) P).
      assert (A : Qabs (- q) = Qabs q) by (destruct q as [[|n|n] d]; reflexivity).
      rewrite A. ring.
    + rewrite (binary64_Q_zero q), (binary64_Q_zero (- q)) by lra. reflexivity.
Qed.

(** An integer of magnitude below [2^53] times a power of two is a
    float. *)
Lemma binary64_Q_fixes (q : Q) (m k : Z) :
  - 2 ^ 53 < m < 2 ^ 53 ->
  (q == inject_Z m * Py.pow2 k)%Q ->
  (Py.binary64_Q q == q)%Q.
Proof.
  intros [M0 M1] E.
  destruct (Z.lt_trichotomy m 0) as [N|[Z|P]].
  - assert (E' : (- q == inject_Z (- m) * Py.pow2 k)%Q)
      by (rewrite E, inject_Z_opp; ring).
    pose proof (binary64_Q_fixes_pos (- q) (- m) k ltac:(lia) E') as F.
    rewrite binary64_Q_opp in F. lra.
  - subst m. rewrite (binary64_Q_zero q); [|rewrite E; ring].
    rewrite E. ring.
  - apply (binary64_Q_fixes_pos q m k); [lia|exact E].
Qed.

Lemma this_ratio (n d : Z) :
  (this (ratio n d) == inject_Z n / inject_Z d)%Q.
Proof.
  unfold ratio, Qcdiv, Qcmult, Qcinv, Q2Qc. cbn [this].
  rewrite !Qred_correct, !this_Qc_of_Z. reflexivity.
Qed.

(** A number of ticks of [2^-22] second below [2^53] is a float. *)
Lemma binary64_ticks (n : Z) :
  - 2 ^ 53 < n < 2 ^ 53 ->
  Py.binary64 (ratio n (2 ^ 22)) = ratio n (2 ^ 22).
Proof.
  intro B. apply Qc_is_canon. unfold Py.binary64, Q2Qc. cbn [this].
  rewrite Qred_correct.
  apply (binary64_Q_fixes _ n (- 22) B).
  rewrite this_ratio. reflexivity.
Qed.

Lemma ratio_add (a b d : Z) :
  d <> 0 -> (ratio a d + ratio b d)%Qc = ratio (a + b) d.
Proof.
  intro D. apply Qc_is_canon.
  unfold Qcplus, Q2Qc. cbn [this]. rewrite Qred_correct, !this_ratio, inject_Z_plus.
  assert (N : ~ (inject_Z d == 0)%Q)
    by (intro H; apply D; apply (proj1 (inject_Z_injective d 0)); exact H).
  field. exact N.
Qed.

Lemma ratio_sub (a b d : Z) :
  d <> 0 -> (ratio a d - ratio b d)%Qc = ratio (a - b) d.
Proof.
  intro D. apply Qc_is_canon.
  unfold Qcminus, Qcplus, Qcopp, Q2Qc. cbn [this].
  rewrite !Qred_correct, !this_ratio.
  unfold Z.sub. rewrite inject_Z_plus, inject_Z_opp.
  assert (N : ~ (inject_Z d == 0)%Q)
    by (intro H; apply D; apply (proj1 (inject_Z_injective d 0)); exact H).
  field. exact N.
Qed.

Lemma ratio_zero (d : Z) : d <> 0 -> ratio 0 d = Qc_of_Z 0.
Proof.
  intro D. apply Qc_is_canon. rewrite this_ratio, this_Qc_of_Z.
  assert (N : ~ (inject_Z d == 0)%Q)
    by (intro H; apply D; apply (proj1 (inject_Z_injective d 0)); exact H).
  field. exact N.
Qed.

(** The loop of [sum] on ticks: while the running total stays below
    [2^53] ticks no addition rounds and the compensation stays 0. *)
Lemma compensated_ticks (l : list Z) (f : Z) :
  Forall (fun n => 0 <= n) l ->
  0 <= f ->
  f + list_sum_Z l < 2 ^ 53 ->
  Py.compensated Py.binary64 (map (fun n => ratio n (2 ^ 22)) l)
    (ratio f (2 ^ 22)) (Qc_of_Z 0)
  = (ratio (f + list_sum_Z l) (2 ^ 22), Qc_of_Z 0).
Proof.
  intro A. revert f. induction A as [|x l X A IH]; intros f F B.
  - cbn. now rewrite Z.add_0_r.
  - cbn [map Py.compensated list_sum_Z] in *.
    assert (Pl : 0 <= list_sum_Z l).
    { clear - A. induction A; cbn [list_sum_Z]; lia. }
    assert (D : 2 ^ 22 <> 0) by lia.
    rewrite !ratio_add by exact D.
    rewrite (binary64_ticks (f + x)) by lia.
    rewrite !ratio_sub, !binary64_ticks, !ratio_add by (exact D || lia).
    replace (x - (f + x) + f) with 0 by lia.
    replace (f - (f + x) + x) with 0 by lia.
    rewrite (ratio_zero _ D).
    assert (Z0 : Py.binary64 (Qc_of_Z 0) = Qc_of_Z 0)
      by (apply Qc_is_canon; reflexivity).
    assert (Z1 : (Qc_of_Z 0 + Qc_of_Z 0)%Qc = Qc_of_Z 0)
      by (apply Qc_is_canon; reflexivity).
    rewrite Z0, Z1, Z0.
    destruct (Qc_ltb (Py.fabs (ratio f (2 ^ 22))) (Py.fabs (ratio x (2 ^ 22))));
      rewrite IH by lia; f_equal; f_equal; lia.
Qed.

Lemma list_sum_ticks (l : list Z) :
  list_sum_Qc (map (fun n => ratio n (2 ^ 22)) l) = ratio (list_sum_Z l) (2 ^ 22).
Proof.
  induction l as [|x l IH].
  - cbn. symmetry. apply ratio_zero. lia.
  - cbn [map list_sum_Qc fold_right list_sum_Z]. unfold list_sum_Qc in IH.
    rewrite IH. apply ratio_add. lia.
Qed.

(** Latencies that are differences of clock readings are whole numbers
    of ticks of [2^-22] second, the spacing of the floats between [2^30]
    and [2^31], where [time.time()] lies from 2004 to 2038. Their float
    sum is their exact sum as long as the total stays below [2^53]
    ticks, some 68 years. *)
Lemma sum_of_clock_differences_is_exact (l : list Z) :
  Forall (fun n => 0 <= n) l ->
  list_sum_Z l < 2 ^ 53 ->
  sum_is_exact Py.binary64 (map (fun n => ratio n (2 ^ 22)) l).
Proof.
  intros A B. unfold sum_is_exact. rewrite list_sum_ticks.
  destruct l as [|x l]; [cbn; symmetry; apply ratio_zero; lia|].
  inversion A as [|? ? X A']; subst.
  cbn [map Py.sum list_sum_Z] in *.
  assert (Pl : 0 <= list_sum_Z l).
  { clear - A'. induction A'; cbn [list_sum_Z]; lia. }
  assert (E : (Qc_of_Z 0 + ratio x (2 ^ 22))%Qc = ratio x (2 ^ 22)).
  { rewrite <- (ratio_zero (2 ^ 22)) by lia. rewrite ratio_add by lia. reflexivity. }
  rewrite E, binary64_ticks by lia.
  rewrite (compensated_ticks l x A' X B).
  assert (Z0 : Qc_eq_bool (Qc_of_Z 0) (Qc_of_Z 0) = true) by reflexivity.
  now rewrite Z0.
Qed.

(** * The summary in floating point *)






Lemma py_round_float (rnd : Qc -> Qc) (y : Qc) :
  float_rounded_2dp rnd (Py.round rnd y 2) y.
Proof.
  exists (round_half_even (y * Qc_of_Z 100)%Qc). split.
  - reflexivity.
  - apply round_half_even_nearest.
Qed.

(** The rounding of the product matters: the float nearest to 0.000165,
    times 1000, is a float just above 0.165, which [round] takes to
    0.17; the exact product lies below 0.165. *)
Lemma round_of_a_float_product :
  let x := float_of 165 1000000 in
  Py.round Py.binary64 (Py.binary64 (x * Qc_of_Z 1000)%Qc) 2 = float_of 17 100 /\
  py_round (x * Qc_of_Z 1000)%Qc 2 = ratio 16 100.
Proof. split; apply Qc_is_canon; vm_compute; reflexivity. Qed.

(** [23 / 160 * 100] is the float just below 14.375. *)
Lemma success_rate_of_23_in_160 :
  Py.success_rate Py.binary64 (mkStats 160 23 137 [] [])
  = ratio 8092405580431359 562949953421312 /\
  (ratio 8092405580431359 562949953421312 < ratio 14375 1000)%Qc.
Proof.
  split.
  - apply Qc_is_canon. vm_compute. reflexivity.
  - vm_compute. reflexivity.
Qed.

(** The average can leave the interval between the minimum and the
    maximum: the mean of five equal floats just below 0.000025 rounds up
    to 0.000025, which [round] takes to 0.03 when the least and greatest
    latency are taken to 0.02. *)
Lemma average_above_maximum :
  let r := Py.get_summary Py.binary64 five_short_requests in
  s_min_response_time_ms r = float_of 2 100 /\
  s_max_response_time_ms r = float_of 2 100 /\
  s_avg_response_time_ms r = float_of 3 100.
Proof. repeat split; apply Qc_is_canon; vm_compute; reflexivity. Qed.

(** On latencies that are differences of clock readings the sum is
    exact, and the rounding of the quotient and of the product still
    shows: the mean is half way between two hundredths, the float
    product lies just above it and [round] goes up, where the exact
    product would go to the even hundredth. *)
Lemma average_of_clock_differences :
  sum_is_exact Py.binary64 (response_times five_clock_differences) /\
  s_avg_response_time_ms (Py.get_summary Py.binary64 five_clock_differences)
  = float_of 50313 100 /\
  s_avg_response_time_ms (get_summary five_clock_differences) = ratio 50312 100.
Proof. repeat split; apply Qc_is_canon; vm_compute; reflexivity. Qed.


(** C10: each of the three latency fields of the summary is the seconds
    value computed by [get_summary], multiplied by 1000 as a float, then
    rounded to two decimal places: the float nearest to the decimal
    [k / 100], [k] being the integer nearest to a hundred times the
    product, the even one on a tie. With no latency recorded the three
    fields are 0. *)
Theorem summary_latencies_rounded_in_floats (rnd : Qc -> Qc) (s : RequestStats) :
  let r := Py.get_summary rnd s in
  let ms (x : Qc) := rnd (x * Qc_of_Z 1000)%Qc in
  (response_times s = [] ->
   s_avg_response_time_ms r = Qc_of_Z 0 /\
   s_min_response_time_ms r = Qc_of_Z 0 /\
   s_max_response_time_ms r = Qc_of_Z 0) /\
  (response_times s <> [] ->
   float_rounded_2dp rnd (s_avg_response_time_ms r) (ms (Py.avg_response_time rnd s)) /\
   float_rounded_2dp rnd (s_min_response_time_ms r) (ms (min_response_time s)) /\
   float_rounded_2dp rnd (s_max_response_time_ms r) (ms (max_response_time s))).
Proof.
  cbv zeta. unfold Py.get_summary. cbn [s_avg_response_time_ms
    s_min_response_time_ms s_max_response_time_ms].
  unfold Py.milliseconds. split; intro H.
  - rewrite H. repeat split.
  - destruct (response_times s) as [|x l]; [congruence|].
    repeat split; apply py_round_float.
Qed.

(** ** Order of ingestion, in floating point *)




(** X2: the minimum reported is never above the maximum reported:
    multiplying by 1000 and rounding keep the order of the least and
    the greatest latency. (The average carries the rounding of a sum and
    a quotient and can leave the interval, see
    [average_above_maximum].) *)
Theorem summary_minimum_below_maximum (rnd : Qc -> Qc) (s : RequestStats) :
  monotone rnd ->
  (s_min_response_time_ms (Py.get_summary rnd s)
   <= s_max_response_time_ms (Py.get_summary rnd s))%Qc.
Proof.
  intro M. unfold Py.get_summary. cbn [s_min_response_time_ms s_max_response_time_ms].
  unfold Py.milliseconds.
  destruct (response_times s) as [|x l] eqn:E; [apply Qcle_refl|].
  assert (N : response_times s <> []) by (rewrite E; discriminate).
  destruct (min_response_time_min s N) as [I L].
  destruct (max_response_time_max s N) as [_ U].
  unfold Py.round. apply M, py_round_mono, M.
  apply Qcmult_le_compat_r; [apply U; exact I|apply Qc_of_Z_le; lia].
Qed.

Lemma summary_minimum_below_maximum_witness :
  (s_min_response_time_ms (Py.get_summary Py.binary64 five_short_requests)
   <= s_max_response_time_ms (Py.get_summary Py.binary64 five_short_requests))%Qc.
Proof.
  apply (summary_minimum_below_maximum Py.binary64 five_short_requests).
  exact binary64_monotone.
Defined.

(** * One request, with code points and a fallible [print] *)

(** ** Slices *)

Lemma slice_prefix (n : nat) (s : string) :
  exists rest, s = (Py.slice n s ++ rest)%string.
Proof.
  revert n. induction s as [|c s IH]; intro n.
  - exists EmptyString. reflexivity.
  - cbn [Py.slice]. destruct (Py.is_continuation c).
    + destruct (IH n) as [rest E]. exists rest. cbn. now rewrite <- E.
    + destruct n as [|k].
      * eexists. reflexivity.
      * destruct (IH k) as [rest E]. exists rest. cbn. now rewrite <- E.
Qed.

Lemma slice_len (n : nat) (s : string) :
  Py.len (Py.slice n s) = Nat.min n (Py.len s).
Proof.
  revert n. induction s as [|c s IH]; intro n.
  - cbn. now rewrite Nat.min_0_r.
  - cbn [Py.slice Py.len]. destruct (Py.is_continuation c) eqn:C.
    + cbn [Py.len]. rewrite C. apply IH.
    + destruct n as [|k]; [reflexivity|].
      cbn [Py.len]. rewrite C, IH. reflexivity.
Qed.

Lemma slice_all (n : nat) (s : string) :
  (Py.len s <= n)%nat -> Py.slice n s = s.
Proof.
  revert n. induction s as [|c s IH]; intros n H; [reflexivity|].
  cbn [Py.slice Py.len] in *. destruct (Py.is_continuation c).
  - now rewrite IH.
  - destruct n as [|k]; [lia|]. rewrite IH by lia. reflexivity.
Qed.

(** On text of one byte per character a slice by code points is the
    slice by bytes, and the length is the number of bytes. *)
Lemma ascii_not_continuation (c : ascii) :
  (N_of_ascii c <? 128)%N = true -> Py.is_continuation c = false.
Proof.
  intro H. unfold Py.is_continuation. apply N.ltb_lt in H.
  destruct (128 <=? N_of_ascii c)%N eqn:E; [apply N.leb_le in E; lia|reflexivity].
Qed.

Lemma slice_ascii (n : nat) (s : string) :
  ascii_only s = true -> Py.slice n s = str_take n s.
Proof.
  revert n. induction s as [|c s IH]; intros n H.
  - destruct n; reflexivity.
  - cbn [ascii_only] in H. apply andb_true_iff in H. destruct H as [C A].
    cbn [Py.slice]. rewrite (ascii_not_continuation c C).
    destruct n as [|k]; [reflexivity|]. cbn [str_take]. now rewrite IH.
Qed.

Lemma len_ascii (s : string) : ascii_only s = true -> Py.len s = String.length s.
Proof.
  induction s as [|c s IH]; intro H; [reflexivity|].
  cbn [ascii_only] in H. apply andb_true_iff in H. destruct H as [C A].
  cbn [Py.len String.length]. rewrite (ascii_not_continuation c C). now rewrite IH.
Qed.

(** A slice counts characters, not bytes: the forty characters of
    [forty_characters] take a hundred and twenty bytes, [[:100]] keeps
    them all and a cut after a hundred bytes does not. *)
Lemma slice_counts_code_points :
  Py.len forty_characters = 40%nat /\
  String.length forty_characters = 120%nat /\
  Py.slice 100 forty_characters = forty_characters /\
  str_take 100 forty_characters <> forty_characters.
Proof.
  split; [reflexivity|]. split; [reflexivity|]. split; [reflexivity|].
  intro E. apply (f_equal String.length) in E. vm_compute in E. discriminate E.
Qed.

(** ** The calls on the aggregator *)

Lemma client_error_is_exception (e : exn) :
  is_ClientError e = true -> is_Exception e = true.
Proof.
  unfold is_ClientError, is_Exception. destruct (exn_cls e); congruence.
Qed.

Lemma handled_length (e : exn) (elapsed : Qc) :
  List.length (handled e elapsed) = if is_Exception e then 1%nat else 0%nat.
Proof.
  unfold handled. destruct (is_ClientError e) eqn:C.
  - now rewrite (client_error_is_exception e C).
  - destruct (is_Exception e); reflexivity.
Qed.

Lemma handled_failures (e : exn) (elapsed : Qc) :
  forallb (fun o => negb (is_success o)) (handled e elapsed) = true.
Proof.
  unfold handled. destruct (is_ClientError e); [reflexivity|].
  destruct (is_Exception e); reflexivity.
Qed.

(** What [make_request] does to the aggregator and to the list of
    requested URLs, whatever the console does. *)
Lemma py_make_request_stats out env burl lo hi w :
  lo <= hi ->
  stats (snd (Py.make_request out env burl lo hi w))
  = ingest_all (py_outcomes out env) (stats w).
Proof.
  intro H. apply Z.leb_le in H.
  unfold py_outcomes, handled. py_run_request. rewrite H. world_simpl.
  destruct (get_outcome env) as [status|e].
  - destruct (text_outcome env) as [content|e].
    + destruct (status =? 200); world_simpl;
        (destruct (Py.progress_print out) as [e|]; world_simpl;
         [destruct (is_ClientError e);
          [world_simpl; destruct (Py.handler_print out); world_simpl;
           rewrite Qc_elapsed, Qc_elapsed2; reflexivity|];
          destruct (is_Exception e);
          [world_simpl; destruct (Py.handler_print out); world_simpl;
           rewrite Qc_elapsed, Qc_elapsed2; reflexivity|];
          rewrite Qc_elapsed; reflexivity
         |rewrite Qc_elapsed; reflexivity]).
    + world_simpl.
      destruct (is_ClientError e);
        [world_simpl; destruct (Py.handler_print out); world_simpl;
         rewrite Qc_elapsed2; reflexivity|].
      destruct (is_Exception e);
        [world_simpl; destruct (Py.handler_print out); world_simpl;
         rewrite Qc_elapsed2; reflexivity|].
      reflexivity.
  - world_simpl.
    destruct (is_ClientError e);
      [world_simpl; destruct (Py.handler_print out); world_simpl;
       rewrite Qc_elapsed; reflexivity|].
    destruct (is_Exception e);
      [world_simpl; destruct (Py.handler_print out); world_simpl;
       rewrite Qc_elapsed; reflexivity|].
    reflexivity.
Qed.

Lemma py_make_request_requested out env burl lo hi w :
  lo <= hi ->
  requested (snd (Py.make_request out env burl lo hi w))
  = requested w ++ [(burl ++ "/user?id=" ++ str_of_int (rand_id env))%string].
Proof.
  intro H. apply Z.leb_le in H.
  py_run_request. rewrite H. world_simpl.
  destruct (get_outcome env) as [status|e].
  - destruct (text_outcome env) as [content|e].
    + destruct (status =? 200); world_simpl;
        (destruct (Py.progress_print out) as [e|]; world_simpl; [|reflexivity];
         destruct (is_ClientError e);
         [world_simpl; destruct (Py.handler_print out); reflexivity|];
         destruct (is_Exception e);
         [world_simpl; destruct (Py.handler_print out); reflexivity|reflexivity]).
    + world_simpl.
      destruct (is_ClientError e);
        [world_simpl; destruct (Py.handler_print out); reflexivity|].
      destruct (is_Exception e);
        [world_simpl; destruct (Py.handler_print out); reflexivity|reflexivity].
  - world_simpl.
    destruct (is_ClientError e);
      [world_simpl; destruct (Py.handler_print out); reflexivity|].
    destruct (is_Exception e);
      [world_simpl; destruct (Py.handler_print out); reflexivity|reflexivity].
Qed.


(** With a console that writes every line, [make_request] returns
    unless it is interrupted, and prints one line when it returns. *)
Lemma py_make_request_quiet env burl lo hi w :
  lo <= hi ->
  (interrupted env = false ->
   fst (Py.make_request quiet env burl lo hi w) = Ret tt /\
   List.length (stdout (snd (Py.make_request quiet env burl lo hi w)))
   = S (List.length (stdout w))) /\
  (interrupted env = true ->
   stdout (snd (Py.make_request quiet env burl lo hi w)) = stdout w).
Proof.
  intro H. apply Z.leb_le in H. unfold interrupted, quiet.
  py_run_request. cbn [Py.progress_print Py.handler_print].
  rewrite H. world_simpl.
  destruct (get_outcome env) as [status|e].
  - destruct (text_outcome env) as [content|e].
    + split; [|discriminate]. intros _.
      destruct (status =? 200); world_simpl; rewrite length_app; cbn [List.length];
        split; [reflexivity|lia|reflexivity|lia].
    + world_simpl. destruct (is_ClientError e) eqn:C.
      * rewrite (client_error_is_exception e C). split; [|discriminate]. intros _.
        world_simpl. rewrite length_app. cbn [List.length]. split; [reflexivity|lia].
      * destruct (is_Exception e) eqn:X.
        -- split; [|discriminate]. intros _. world_simpl.
           rewrite length_app. cbn [List.length]. split; [reflexivity|lia].
        -- split; [discriminate|]. intros _. reflexivity.
  - world_simpl. destruct (is_ClientError e) eqn:C.
    + rewrite (client_error_is_exception e C). split; [|discriminate]. intros _.
      world_simpl. rewrite length_app. cbn [List.length]. split; [reflexivity|lia].
    + destruct (is_Exception e) eqn:X.
      * split; [|discriminate]. intros _. world_simpl.
        rewrite length_app. cbn [List.length]. split; [reflexivity|lia].
      * split; [discriminate|]. intros _. reflexivity.
Qed.

Lemma py_outcomes_quiet (out : Py.console) (env : attempt) :
  Py.progress_print out = None ->
  List.length (py_outcomes out env) = if counted env then 1%nat else 0%nat.
Proof.
  intro Q. unfold py_outcomes, counted, interrupted. rewrite Q.
  destruct (get_outcome env) as [status|e].
  - destruct (text_outcome env) as [content|e]; [reflexivity|].
    rewrite handled_length. now destruct (is_Exception e).
  - rewrite handled_length. now destruct (is_Exception e).
Qed.

Lemma py_outcomes_bound (out : Py.console) (env : attempt) :
  (List.length (py_outcomes out env) <= 2)%nat.
Proof.
  unfold py_outcomes.
  destruct (get_outcome env) as [status|e].
  - destruct (text_outcome env) as [content|e].
    + cbn [List.length]. destruct (Py.progress_print out) as [e|]; [|cbn; lia].
      rewrite handled_length. destruct (is_Exception e); lia.
    + rewrite handled_length. destruct (is_Exception e); lia.
  - rewrite handled_length. destruct (is_Exception e); lia.
Qed.

(** With text of one byte per character and a console that writes
    every line, [Py.make_request] is [make_request]. *)
Lemma py_make_request_plain env burl lo hi w :
  match text_outcome env with
  | TextBody content => ascii_only content = true
  | TextRaises _ => True
  end ->
  Py.make_request quiet env burl lo hi w = make_request env burl lo hi w.
Proof.
  intro A. unfold quiet. py_run_request. run_request.
  cbn [Py.progress_print Py.handler_print].
  destruct (lo <=? hi); [|reflexivity]. world_simpl.
  destruct (get_outcome env) as [status|e]; [|reflexivity].
  destruct (text_outcome env) as [content|e]; [|reflexivity].
  rewrite !slice_ascii by exact A. reflexivity.
Qed.

(** What a response other than 200 leads to: [add_failure] with the
    message of the response, then whatever the handler of a failed
    [print] adds. *)
Lemma py_http_failure_recorded out env burl lo hi w status content :
  lo <= hi ->
  responded env = Some (status, content) ->
  status <> 200 ->
  exists more,
    stats (snd (Py.make_request out env burl lo hi w))
    = ingest_all more
        (add_failure (py_http_error status content) (get_delay env) (stats w)) /\
    count_of is_success more = 0 /\
    (Py.progress_print out = None -> more = []).
Proof.
  intros H R N.
  rewrite py_make_request_stats by assumption.
  unfold responded in R. unfold py_outcomes.
  destruct (get_outcome env) as [st|e]; [|discriminate].
  destruct (text_outcome env) as [c|e]; [|discriminate].
  injection R as -> ->.
  apply Z.eqb_neq in N. rewrite N.
  exists (match Py.progress_print out with
          | Some e => handled e (get_delay env + text_delay env)%Qc
          | None => []
          end).
  split; [reflexivity|]. split.
  - destruct (Py.progress_print out) as [e|]; [|reflexivity].
    unfold handled, count_of. destruct (is_ClientError e); [reflexivity|].
    destruct (is_Exception e); reflexivity.
  - intro P. now rewrite P.
Qed.



(** X8: with a valid range and no cancellation, [make_request] requests
    exactly one URL and calls the aggregator once or twice. When both
    progress lines can be written it returns normally, having made
    exactly one call and printed one line. When the line that reports a
    response cannot be written, the exception of [print] is handled as a
    failure of the request: the response is counted, and then a failure
    is counted for the same request. *)
Theorem make_request_calls_once_or_twice out env burl lo hi w :
  lo <= hi ->
  interrupted env = false ->
  let w' := snd (Py.make_request out env burl lo hi w) in
  requested w' = requested w ++ [(burl ++ "/user?id=" ++ str_of_int (rand_id env))%string] /\
  (exists o more,
     stats w' = ingest_all (o :: more) (stats w) /\ (List.length more <= 1)%nat) /\
  (out = quiet ->
   fst (Py.make_request out env burl lo hi w) = Ret tt /\
   (exists o, stats w' = ingest o (stats w)) /\
   total_requests (stats w') = total_requests (stats w) + 1 /\
   List.length (stdout w') = S (List.length (stdout w))) /\
  (forall status content e,
     responded env = Some (status, content) ->
     Py.progress_print out = Some e ->
     is_Exception e = true ->
     total_requests (stats w') = total_requests (stats w) + 2 /\
     failed_requests (stats w') = failed_requests (stats w) + (if status =? 200 then 1 else 2) /\
     successful_requests (stats w')
     = successful_requests (stats w) + (if status =? 200 then 1 else 0)).
Proof.
  intros H U. cbv zeta.
  rewrite py_make_request_stats, py_make_request_requested by assumption.
  split; [reflexivity|].
  assert (O : exists o more, py_outcomes out env = o :: more /\ (List.length more <= 1)%nat).
  { pose proof (py_outcomes_bound out env) as B.
    unfold py_outcomes, interrupted in *.
    destruct (get_outcome env) as [status|e].
    - destruct (text_outcome env) as [content|e].
      + eexists. eexists. split; [reflexivity|]. cbn [List.length] in B. lia.
      + apply negb_false_iff in U. unfold handled in *.
        destruct (is_ClientError e); [eexists; exists []; split; [reflexivity|cbn; lia]|].
        rewrite U. eexists; exists []; split; [reflexivity|cbn; lia].
    - apply negb_false_iff in U. unfold handled in *.
      destruct (is_ClientError e); [eexists; exists []; split; [reflexivity|cbn; lia]|].
      rewrite U. eexists; exists []; split; [reflexivity|cbn; lia]. }
  destruct O as (o & more & E & L).
  split; [exists o, more; rewrite E; now split|].
  split.
  - intros ->.
    destruct (py_make_request_quiet env burl lo hi w H) as [[R S] _]; [exact U|].
    pose proof (py_outcomes_quiet quiet env eq_refl) as Q.
    unfold counted in Q. rewrite U, E in Q. cbn [negb List.length] in Q.
    destruct more as [|o' more]; [|discriminate]. rewrite E.
    split; [exact R|]. split; [exists o; reflexivity|]. split; [|exact S].
    destruct o; reflexivity.
  - intros status content e R P X. clear E L.
    unfold responded in R. unfold py_outcomes.
    destruct (get_outcome env) as [st|e']; [|discriminate].
    destruct (text_outcome env) as [c|e']; [|discriminate].
    injection R as -> ->. rewrite P.
    unfold handled. destruct (is_ClientError e).
    + destruct (status =? 200); cbn; repeat split; lia.
    + rewrite X. destruct (status =? 200); cbn; repeat split; lia.
Qed.

Lemma make_request_calls_once_or_twice_witness :
  fst (Py.make_request quiet refused "http://localhost:8080" 1 10000 fresh_world) = Ret tt.
Proof.
  destruct (make_request_calls_once_or_twice quiet refused "http://localhost:8080"
              1 10000 fresh_world) as (_ & _ & Q & _).
  - lia.
  - reflexivity.
  - apply (Q eq_refl).
Defined.

(** X11: the message recorded for a response other than 200 carries the
    whole body when the body has at most 100 characters, whatever bytes
    they take, and never more than 100 characters of it. *)
Theorem http_error_message_bounded_in_characters out env burl lo hi w status content :
  lo <= hi ->
  responded env = Some (status, content) ->
  status <> 200 ->
  exists kept later,
    errors (stats (snd (Py.make_request out env burl lo hi w)))
    = errors (stats w) ++ ("HTTP " ++ str_of_int status ++ ": " ++ kept)%string :: later /\
    (Py.len kept <= 100)%nat /\
    ((Py.len content <= 100)%nat -> kept = content) /\
    (exists rest, content = (kept ++ rest)%string) /\
    (Py.progress_print out = None -> later = []).
Proof.
  intros H R N.
  destruct (py_http_failure_recorded out env burl lo hi w status content H R N)
    as (more & E & _ & Q).
  exists (Py.slice 100 content), (flat_map errors_of more).
  rewrite E.
  destruct (ingest_all_fields more
              (add_failure (py_http_error status content) (get_delay env) (stats w)))
    as (_ & _ & _ & _ & Er).
  rewrite Er. cbn [add_failure errors]. rewrite <- app_assoc.
  split; [reflexivity|]. split; [rewrite slice_len; lia|].
  split; [apply slice_all|]. split; [apply slice_prefix|].
  intro P. now rewrite (Q P).
Qed.

Lemma http_error_message_bounded_in_characters_witness :
  errors (stats (snd (Py.make_request quiet not_found_long "http://localhost:8080" 1 10000
                        fresh_world)))
  = [("HTTP 404: " ++ forty_characters)%string].
Proof.
  destruct (http_error_message_bounded_in_characters quiet not_found_long "http://localhost:8080"
              1 10000 fresh_world 404 forty_characters)
    as (kept & later & E & _ & K & _ & L).
  - lia.
  - reflexivity.
  - lia.
  - rewrite (K ltac:(vm_compute; lia)), (L eq_refl) in E. exact E.
Defined.

(** * The batch, with a fallible [print] *)

Lemma py_step_inv (cfg : config) (outs : nat -> Py.console) (ev : event) (b b' : batch) :
  Py.step cfg outs ev b = Some b' ->
  (exists i, ev = Acquire i /\ nth_error (tasks b) i = Some Waiting /\ 0 < sem b /\
     b' = mkBatch (sem b - 1) (set_nth i InFlight (tasks b))
            (b_stats b) (b_stdout b) (b_requested b)) \/
  (exists i env, ev = Complete i env /\ nth_error (tasks b) i = Some InFlight /\
     let w := mkWorld (t_start env) (b_stats b) (b_stdout b) (b_requested b) in
     let w' := snd (Py.make_request (outs i) env (base_url cfg) (min_id cfg)
                      (max_id cfg) w) in
     b' = mkBatch (sem b) (set_nth i Returned (tasks b))
            (stats w') (stdout w') (requested w')) \/
  (exists i, ev = Release i /\ nth_error (tasks b) i = Some Returned /\
     b' = mkBatch (sem b + 1) (set_nth i Done (tasks b))
            (b_stats b) (b_stdout b) (b_requested b)).
Proof.
  unfold Py.step. intro S.
  destruct (nth_error (tasks b) (event_task ev)) as [t|] eqn:N; [|discriminate].
  destruct ev as [i|i env|i], t; cbn [Py.bounded_request event_task] in *;
    try discriminate.
  - unfold Semaphore_acquire in S.
    destruct (0 <? sem b) eqn:L; [|discriminate]. apply Z.ltb_lt in L.
    injection S as <-. left. exists i. repeat split; assumption.
  - injection S as <-. right. left. exists i, env. repeat split. assumption.
  - injection S as <-. right. right. exists i. repeat split. assumption.
Qed.

Lemma py_ingestions_quiet (outs : nat -> Py.console) (evs : list event) :
  (forall i, Py.progress_print (outs i) = None) ->
  List.length (py_ingestions outs evs) = List.length (filter counted (completions evs)).
Proof.
  intro Q. induction evs as [|[i|i env|i] evs IH]; cbn [py_ingestions completions];
    try assumption; [reflexivity|].
  cbn [filter]. rewrite length_app, (py_outcomes_quiet _ env (Q i)), IH.
  destruct (counted env); reflexivity.
Qed.

Lemma py_ingestions_bound (outs : nat -> Py.console) (evs : list event) :
  (List.length (py_ingestions outs evs) <= 2 * List.length (completions evs))%nat.
Proof.
  induction evs as [|[i|i env|i] evs IH]; cbn [py_ingestions completions];
    try assumption; [cbn; lia|].
  rewrite length_app. pose proof (py_outcomes_bound (outs i) env).
  cbn [List.length]. lia.
Qed.

(** What any run of the event loop has done to the batch. *)
Lemma py_run_effects (cfg : config) (outs : nat -> Py.console) (evs : list event)
    (b b' : batch) :
  min_id cfg <= max_id cfg ->
  Py.run_from cfg outs evs b = Some b' ->
  b_stats b' = ingest_all (py_ingestions outs evs) (b_stats b) /\
  count_tasks past_request (tasks b')
  = count_tasks past_request (tasks b) + Z.of_nat (List.length (completions evs)) /\
  List.length (tasks b') = List.length (tasks b) /\
  b_requested b' = b_requested b ++ map (url_of cfg) (completions evs) /\
  ((forall i, outs i = quiet) ->
   List.length (b_stdout b')
   = (List.length (b_stdout b) + List.length (filter counted (completions evs)))%nat).
Proof.
  intro M. revert b. induction evs as [|ev evs IH]; intros b R.
  - injection R as <-. cbn. rewrite app_nil_r. repeat split; lia.
  - cbn [Py.run_from] in R.
    destruct (Py.step cfg outs ev b) as [b1|] eqn:S; [|discriminate].
    destruct (IH b1 R) as (St & Ct & Lt & Rq & So).
    rewrite St, Ct, Lt, Rq. clear IH R St Ct Lt Rq.
    destruct (py_step_inv _ _ _ _ _ S)
      as [(i & -> & N & L & ->)|[(i & env & -> & N & ->)|(i & -> & N & ->)]];
      cbn [completions py_ingestions map filter b_stats tasks b_requested b_stdout]
        in *.
    + rewrite (count_tasks_set_nth _ _ _ _ _ N), set_nth_length. simpl Z.b2z.
      repeat split; try lia. exact So.
    + rewrite (count_tasks_set_nth _ _ _ _ _ N), set_nth_length. simpl Z.b2z.
      rewrite py_make_request_stats, py_make_request_requested by assumption.
      cbn [stats requested]. rewrite ingest_all_app, <- app_assoc.
      split; [reflexivity|].
      split; [cbn [List.length]; lia|]. split; [reflexivity|].
      split; [reflexivity|].
      intro Q. rewrite (So Q), (Q i).
      destruct (py_make_request_quiet env (base_url cfg) (min_id cfg) (max_id cfg)
                  (mkWorld (t_start env) (b_stats b) (b_stdout b) (b_requested b)) M)
        as [A B].
      unfold counted. destruct (interrupted env).
      * rewrite (B eq_refl). cbn [stdout negb List.length]. lia.
      * destruct (A eq_refl) as [_ Le]. rewrite Le. cbn [stdout negb List.length]. lia.
    + rewrite (count_tasks_set_nth _ _ _ _ _ N), set_nth_length. simpl Z.b2z.
      repeat split; try lia. exact So.
Qed.

(** C1 fails on the code when a progress line cannot be written. One
    request, answered by a 200, on a console whose encoding lacks the
    marks: [add_success] is called, [print] raises inside the [try],
    [except Exception] takes the error of [print] for an error of the
    request and calls [add_failure]. The batch runs to completion, no
    coroutine was cancelled, one attempt was made, and the aggregator and
    the summary count two requests, one successful and one failed. *)
Theorem unwritten_progress_line_counts_twice :
  match Py.run_concurrent_requests Py.binary64 one_request (fun _ => no_marks)
          demo_timing one_request_schedule with
  | Some b =>
      Forall uninterrupted one_request_schedule /\
      num_requests one_request = 1 /\
      List.length (completions one_request_schedule) = 1%nat /\
      List.length (b_requested b) = 1%nat /\
      total_requests (b_stats b) = 2 /\
      successful_requests (b_stats b) = 1 /\
      failed_requests (b_stats b) = 1 /\
      errors (b_stats b)
      = ["Exception: 'gbk' codec can't encode character '\u2713' in position 0: illegal multibyte sequence"] /\
      s_total_requests (Py.get_summary Py.binary64 (b_stats b)) = 2
  | None => False
  end.
Proof.
  destruct (Py.run_concurrent_requests Py.binary64 one_request (fun _ => no_marks)
              demo_timing one_request_schedule) as [b|] eqn:R.
  - split; [repeat constructor|].
    vm_compute in R. injection R as <-. repeat split.
  - exfalso. vm_compute in R. discriminate R.
Qed.

(** X13: in a finished batch every coroutine has made one attempt and
    requested its one URL, and the aggregator has received the calls of
    the attempts in the order they completed: at most two per attempt.
    When every line that reports a response can be written, the attempts
    that were not cancelled have each been counted once, so
    [total_requests] does not exceed [num_requests]; when every progress
    line can be written, one line was printed for each of them besides
    the six lines of the batch. *)
Theorem finished_batch_accounts_for_every_call (rnd : Qc -> Qc) (cfg : config)
    (outs : nat -> Py.console) (tm : timing) (evs : list event) (b : batch) :
  0 <= num_requests cfg ->
  min_id cfg <= max_id cfg ->
  Py.run_concurrent_requests rnd cfg outs tm evs = Some b ->
  0 <= concurrency cfg /\
  Z.of_nat (List.length (completions evs)) = num_requests cfg /\
  b_stats b = ingest_all (py_ingestions outs evs) RequestStats_init /\
  Permutation (b_requested b) (map (url_of cfg) (completions evs)) /\
  total_requests (b_stats b) <= 2 * num_requests cfg /\
  ((forall i, Py.progress_print (outs i) = None) ->
   total_requests (b_stats b)
   = Z.of_nat (List.length (filter counted (completions evs))) /\
   total_requests (b_stats b) <= num_requests cfg) /\
  ((forall i, outs i = quiet) ->
   List.length (b_stdout b)
   = (6 + List.length (filter counted (completions evs)))%nat).
Proof.
  intros N M R. unfold Py.run_concurrent_requests in R.
  destruct (concurrency cfg <? 0) eqn:K; [discriminate|]. apply Z.ltb_ge in K.
  destruct (Py.run_from cfg outs evs (batch_init cfg)) as [b1|] eqn:E; [|discriminate].
  destruct (finished b1) eqn:F; [|discriminate]. injection R as <-.
  cbn [b_stats b_requested b_stdout].
  destruct (py_run_effects cfg outs evs _ _ M E) as (St & Ct & Lt & Rq & So).
  unfold finished in F. rewrite (count_tasks_all_done _ F), Lt in Ct.
  cbn [batch_init tasks b_stats b_requested b_stdout List.length app] in *.
  rewrite count_tasks_repeat_Waiting, repeat_length, Z2Nat.id in Ct by (reflexivity || lia).
  destruct (ingest_all_fields (py_ingestions outs evs) RequestStats_init) as (T & _).
  rewrite St, T. cbn [RequestStats_init total_requests].
  pose proof (py_ingestions_bound outs evs) as B.
  split; [exact K|]. split; [lia|]. split; [reflexivity|].
  split; [rewrite Rq; apply Permutation_refl|]. split; [lia|]. split.
  - intro Q. rewrite (py_ingestions_quiet outs evs Q).
    pose proof (filter_length_le counted (completions evs)) as Le.
    split; lia.
  - intro Q. rewrite length_app, (So Q). cbn [List.length]. lia.
Qed.

Lemma finished_batch_accounts_for_every_call_witness :
  match Py.run_concurrent_requests Py.binary64 demo_config (fun _ => quiet) demo_timing
          demo_schedule with
  | Some b => total_requests (b_stats b) <= 2 * num_requests demo_config
  | None => False
  end.
Proof.
  destruct (Py.run_concurrent_requests Py.binary64 demo_config (fun _ => quiet)
              demo_timing demo_schedule) as [b|] eqn:R.
  - apply (finished_batch_accounts_for_every_call Py.binary64 demo_config (fun _ => quiet) demo_timing
             demo_schedule b).
    + cbn. lia.
    + cbn. lia.
    + exact R.
  - vm_compute in R. discriminate R.
Defined.

(** The quotient is rounded: fifty requests in the float nearest to 0.3
    seconds give a rate that, multiplied back by the elapsed time, is not
    fifty. *)
Lemma rate_times_elapsed_time :
  let total_time := float_of 3 10 in
  Py.binary64 (Py.qps Py.binary64 50 total_time * total_time)%Qc <> Qc_of_Z 50.
Proof.
  cbv zeta. intro E. apply (f_equal this) in E. vm_compute in E. discriminate E.
Qed.

(** X17: after [gather] has returned, [run_concurrent_requests] prints
    the rule, the elapsed time and the rate: the quotient of the number
    of requests by the elapsed time as floats give it, and 0 instead of
    a division when the clock did not move forward between the two
    readings. *)
Theorem batch_rate_is_the_float_quotient (rnd : Qc -> Qc) (cfg : config) (outs : nat -> Py.console)
    (tm : timing) (evs : list event) (b : batch) :
  Py.run_concurrent_requests rnd cfg outs tm evs = Some b ->
  let total_time := (gather_end tm - gather_start tm)%Qc in
  exists lines rate,
    b_stdout b = lines ++ [Msg dashes; LineElapsed total_time; LineQps rate] /\
    ((total_time <= Qc_of_Z 0)%Qc -> rate = Qc_of_Z 0) /\
    ((Qc_of_Z 0 < total_time)%Qc ->
     rate = rnd (Qc_of_Z (num_requests cfg) / total_time)%Qc).
Proof.
  intro R. cbv zeta. unfold Py.run_concurrent_requests in R.
  destruct (concurrency cfg <? 0); [discriminate|].
  destruct (Py.run_from cfg outs evs (batch_init cfg)) as [b1|]; [|discriminate].
  destruct (finished b1); [|discriminate]. injection R as <-. cbn [b_stdout].
  eexists. eexists. split; [reflexivity|]. unfold Py.qps. split; intro H.
  - apply Qc_ltb_ge in H. now rewrite H.
  - apply Qc_ltb_lt in H. now rewrite H.
Qed.

Lemma batch_rate_is_the_float_quotient_witness :
  match Py.run_concurrent_requests Py.binary64 demo_config (fun _ => quiet) demo_timing
          demo_schedule with
  | Some b =>
      exists lines rate,
        b_stdout b
        = lines ++ [Msg dashes;
                    LineElapsed (gather_end demo_timing - gather_start demo_timing)%Qc;
                    LineQps rate]
  | None => False
  end.
Proof.
  destruct (Py.run_concurrent_requests Py.binary64 demo_config (fun _ => quiet)
              demo_timing demo_schedule) as [b|] eqn:R.
  - destruct (batch_rate_is_the_float_quotient Py.binary64 demo_config (fun _ => quiet) demo_timing
                demo_schedule b R) as (lines & rate & E & _).
    exists lines, rate. exact E.
  - vm_compute in R. discriminate R.
Defined.
